(** * lcd: the directory index and the match resolver of lcd.go

    A shallow embedding of [generateDatabase] (the Indexer), of
    [searchDatabaseOptimized] (the Resolver) and of [main] of lcd.go, with the
    properties of the specification stated and settled on it.

    Conventions of the embedding.
    - A Go [string] is a [string] of the Standard Library: a sequence of bytes.
      [len] is the number of bytes, as an [int], modelled in [Z].
    - [int] is 64 bits wide; [int(^uint(0) >> 1)] is written out with its
      wrap-around in [maxInt].
    - [strings.ToLower] is the function of package [strings]: a string of
      ASCII bytes is lowered byte by byte, any other string is read as UTF-8,
      rune by rune, each byte that is no part of a valid sequence counting as
      U+FFFD, and written back with every rune replaced by its lower-case
      form. The lower-case forms of the runes beyond ASCII are those of the
      tables of package [unicode]; the tables are no part of lcd.go and are a
      parameter of the embedding, [CaseTables].
    - A [bufio.Scanner] with the default split function delivers the lines of
      the file: the text between line feeds, one trailing carriage return
      dropped, a last unterminated line included when it is not empty. Its
      buffer grows up to [MaxScanTokenSize], 64 KiB: at a line of that many
      bytes or more [Scan] returns false with [ErrTooLong], and the call of
      [Scan] after that one delivers the bytes in the buffer as a last
      token. lcd.go looks neither at the result of its first call nor at
      [scanner.Err()].
    - The file system seen by [filepath.WalkDir] is a tree of directory
      entries; [os.ReadDir] of a directory may report an error.
    - The snapshot file is written through a writer whose operations may fail;
      which operation fails is given by the [Disk]. *)

From Stdlib Require Import ZArith NArith List Bool Ascii String Lia.
Import ListNotations.

Set Warnings "-register-all".

Local Open Scope string_scope.
Local Open Scope Z_scope.

(** ** Bytes and strings of Go *)

Definition LF : ascii := "010"%char.
Definition CR : ascii := "013"%char.
Definition slash : ascii := "/"%char.

(** [len(s)] *)
Definition len (s : string) : Z := Z.of_nat (String.length s).

(** [s[n:]] for [0 <= n <= len(s)] *)
Fixpoint sliceFrom (n : nat) (s : string) : string :=
  match n, s with
  | O, _ => s
  | S n', String _ s' => sliceFrom n' s'
  | S _, EmptyString => EmptyString
  end.

(** [s[:n]] for [0 <= n <= len(s)] *)
Fixpoint sliceTo (n : nat) (s : string) : string :=
  match n, s with
  | O, _ => EmptyString
  | S n', String c s' => String c (sliceTo n' s')
  | S _, EmptyString => EmptyString
  end.

(** [strings.LastIndexByte(s, c)]: the index of the last [c] in [s], or -1. *)
Fixpoint lastIndexFrom (i : Z) (s : string) (c : ascii) (found : Z) : Z :=
  match s with
  | EmptyString => found
  | String a s' => lastIndexFrom (i + 1) s' c (if Ascii.eqb a c then i else found)
  end.

Definition LastIndexByte (s : string) (c : ascii) : Z :=
  lastIndexFrom 0 s c (-1).

(** [strings.HasPrefix(s, p)] *)
Fixpoint HasPrefix (s p : string) : bool :=
  match p, s with
  | EmptyString, _ => true
  | String b p', String a s' => Ascii.eqb a b && HasPrefix s' p'
  | String _ _, EmptyString => false
  end.

(** [strings.Contains(s, sub)] *)
Fixpoint Contains (s sub : string) : bool :=
  HasPrefix s sub ||
  match s with
  | EmptyString => false
  | String _ s' => Contains s' sub
  end.

(** ** Runes: packages [unicode/utf8] and [unicode] *)

(** A rune is a number; the runes that occur are not negative. *)
Definition RuneError : N := 65533.   (* U+FFFD *)
Definition MaxRune : N := 1114111.   (* U+10FFFF *)

(** The tables [first] and [acceptRanges] of [unicode/utf8]: for the first
    byte of a sequence of more than one byte, the number of bytes of the
    sequence and the range accepted for its second byte. *)
Definition leading (n0 : N) : option (nat * N * N) :=
  (if (194 <=? n0) && (n0 <=? 223) then Some (2%nat, 128, 191)
   else if n0 =? 224 then Some (3%nat, 160, 191)
   else if (225 <=? n0) && (n0 <=? 236) then Some (3%nat, 128, 191)
   else if n0 =? 237 then Some (3%nat, 128, 159)
   else if (238 <=? n0) && (n0 <=? 239) then Some (3%nat, 128, 191)
   else if n0 =? 240 then Some (4%nat, 144, 191)
   else if (241 <=? n0) && (n0 <=? 243) then Some (4%nat, 128, 191)
   else if n0 =? 244 then Some (4%nat, 128, 143)
   else None)%N.

(** A byte that continues a sequence: within the range accepted, it gives
    its six low bits, [c & maskx]. *)
Definition continuation (lo hi : N) (c : ascii) : option N :=
  let n := N_of_ascii c in
  (if (lo <=? n) && (n <=? hi) then Some (n mod 64) else None)%N.

(** The runes of a string, as [for _, c := range s] and
    [utf8.DecodeRuneInString] read them: an ASCII byte is a rune; a valid
    sequence of two to four bytes is a rune (its bits are those the first
    byte holds under [mask2], [mask3] or [mask4], followed by six of each
    further byte); any other byte is read on its own as [RuneError]. *)
Fixpoint runes (s : string) : list N :=
  match s with
  | EmptyString => []
  | String b0 s1 =>
      let n0 := N_of_ascii b0 in
      let invalid := RuneError :: runes s1 in
      if (n0 <? 128)%N then n0 :: runes s1
      else
        match leading n0, s1 with
        | Some (size, lo, hi), String b1 s2 =>
            match continuation lo hi b1 with
            | None => invalid
            | Some x1 =>
                match size, s2 with
                | 2%nat, _ => ((n0 mod 32) * 64 + x1)%N :: runes s2
                | _, String b2 s3 =>
                    match continuation 128 191 b2 with
                    | None => invalid
                    | Some x2 =>
                        match size, s3 with
                        | 3%nat, _ => ((n0 mod 16) * 4096 + x1 * 64 + x2)%N :: runes s3
                        | _, String b3 s4 =>
                            match continuation 128 191 b3 with
                            | None => invalid
                            | Some x3 =>
                                ((n0 mod 8) * 262144 + x1 * 4096 + x2 * 64 + x3)%N :: runes s4
                            end
                        | _, EmptyString => invalid
                        end
                    end
                | _, EmptyString => invalid
                end
            end
        | _, _ => invalid
        end
  end.

(** [utf8.AppendRune], for a rune that is not negative: the bytes of its
    encoding, which for a surrogate and for a number above [MaxRune] is the
    encoding of [RuneError]. The shifts and masks are written as quotients
    and remainders. *)
Definition EncodeRune (r : N) : string :=
  let three (r : N) :=
    String (ascii_of_N (224 + r / 4096))
      (String (ascii_of_N (128 + (r / 64) mod 64))
         (String (ascii_of_N (128 + r mod 64)) EmptyString)) in
  (if r <=? 127 then String (ascii_of_N r) EmptyString
   else if r <=? 2047 then
     String (ascii_of_N (192 + r / 64))
       (String (ascii_of_N (128 + r mod 64)) EmptyString)
   else if (MaxRune <? r) || ((55296 <=? r) && (r <=? 57343)) then three RuneError
   else if r <=? 65535 then three r
   else
     String (ascii_of_N (240 + r / 262144))
       (String (ascii_of_N (128 + (r / 4096) mod 64))
          (String (ascii_of_N (128 + (r / 64) mod 64))
             (String (ascii_of_N (128 + r mod 64)) EmptyString))))%N.

(** The ASCII branch of [unicode.ToLower]. *)
Definition lowerASCII (r : N) : N :=
  (if (65 <=? r) && (r <=? 90) then r + 32 else r)%N.

(** The case tables of package [unicode], which are no part of lcd.go:
    [toLowerCase r] is [unicode.To(unicode.LowerCase, r)] for a rune [r]
    beyond ASCII. It is never negative, and it is a rune beyond ASCII or, as
    for U+0130 and U+212A, an ASCII lower-case letter. *)
Class CaseTables : Type := mkCaseTables {
  toLowerCase : N -> N;
  toLowerCase_letter :
    forall r, (128 <= r -> toLowerCase r < 128 -> 97 <= toLowerCase r <= 122)%N
}.

(** [unicode.ToLower(r)] *)
Definition unicodeToLower `{CaseTables} (r : N) : N :=
  (if r <=? 127 then
     if (65 <=? r) && (r <=? 90) then r + 32 else r
   else toLowerCase r)%N.

(** [strings.Map(mapping, s)] for a mapping without negative results: every
    rune of [s] is replaced by the encoding of its image. (Go copies the
    bytes in front of the first rune that changes; they are the encodings
    of their runes, since only the shortest encoding of a rune is valid.) *)
Fixpoint writeRunes (rs : list N) : string :=
  match rs with
  | [] => EmptyString
  | r :: rs' => EncodeRune r ++ writeRunes rs'
  end.

Definition Map (mapping : N -> N) (s : string) : string :=
  writeRunes (map mapping (runes s)).

(** The loop of [strings.ToLower] over the bytes: no byte is [>= utf8.RuneSelf]. *)
Fixpoint isASCII (s : string) : bool :=
  match s with
  | EmptyString => true
  | String c s' => (N_of_ascii c <? 128)%N && isASCII s'
  end.

(** ['A' <= c && c <= 'Z'] and [c += 'a' - 'A']. *)
Definition isUpper (c : ascii) : bool :=
  ((65 <=? N_of_ascii c) && (N_of_ascii c <=? 90))%N.

Definition lowerByte (c : ascii) : ascii :=
  if isUpper c then ascii_of_N (N_of_ascii c + 32) else c.

(** The upper-case form of a lower-case ASCII letter. *)
Definition raiseByte (c : ascii) : ascii := ascii_of_N (N_of_ascii c - 32).

(** The branch of [strings.ToLower] for a string of ASCII bytes (which is
    returned as it is when it has no upper-case letter). *)
Fixpoint lowerBytes (s : string) : string :=
  match s with
  | EmptyString => EmptyString
  | String c s' => String (lowerByte c) (lowerBytes s')
  end.

(** [strings.ToLower(s)] *)
Definition ToLower `{CaseTables} (s : string) : string :=
  if isASCII s then lowerBytes s else Map unicodeToLower s.

(** ** Errors *)

(** The [error] values that occur: the two sentinels of [io/fs] and errors
    that carry a message (those of [os] and of [fmt.Errorf]). *)
Inductive error : Type :=
| SkipDir
| SkipAll
| ErrorString (msg : string).

(** [err.Error()], which is what [%v] prints. *)
Definition Error (e : error) : string :=
  match e with
  | SkipDir => "skip this directory"
  | SkipAll => "skip everything and stop the walk"
  | ErrorString msg => msg
  end.

Definition isSkipDir (e : error) : bool :=
  match e with SkipDir => true | _ => false end.

Definition isSkipAll (e : error) : bool :=
  match e with SkipAll => true | _ => false end.

(** ** The Resolver: [searchDatabaseOptimized] *)

Module Resolver.

(** [int(^uint(0) >> 1)]: all 64 bits set, shifted right by one. *)
Definition uintBits : Z := 64.
Definition maxInt : Z := Z.shiftr (Z.lnot 0 mod 2 ^ uintBits) 1.

(** *** The scanner *)

(** [bufio.MaxScanTokenSize], the size the buffer of a scanner grows to. *)
Definition MaxScanTokenSize : Z := 64 * 1024.

(** [bufio.ScanLines]'s [dropCR]. *)
Fixpoint dropCR (s : string) : string :=
  match s with
  | EmptyString => EmptyString
  | String c EmptyString => if Ascii.eqb c CR then EmptyString else s
  | String c s' => String c (dropCR s')
  end.

(** The lines of a file: the text between its line feeds, and what follows
    the last line feed when that is not empty. *)
Fixpoint splitLines (s : string) : list string :=
  match s with
  | EmptyString => []
  | String c s' =>
      if Ascii.eqb c LF then EmptyString :: splitLines s'
      else match splitLines s' with
           | [] => [String c EmptyString]
           | l :: ls => String c l :: ls
           end
  end.

(** The calls of [Scan] on a file with the lines [ls], one after the other:
    [Some token] is a call that returns true and delivers the token, [None]
    one that returns false while the scanner still holds data; every call
    after those listed returns false. A line shorter than the buffer is
    delivered without its carriage return. At a line that fills the buffer
    [Scan] sets [ErrTooLong] and returns false; called again, it hands the
    buffer to the split function as the last data, which makes a token of
    it, and nothing is read after that. *)
Fixpoint scanCalls (ls : list string) : list (option string) :=
  match ls with
  | [] => []
  | l :: ls' =>
      if len l <? MaxScanTokenSize then Some (dropCR l) :: scanCalls ls'
      else [None; Some (dropCR (sliceTo (Z.to_nat MaxScanTokenSize) l))]
  end.

(** [for scanner.Scan() { path := scanner.Text() ... }]: the tokens of the
    calls up to the first one that returns false. *)
Fixpoint loopTokens (calls : list (option string)) : list string :=
  match calls with
  | Some t :: calls' => t :: loopTokens calls'
  | _ => []
  end.

(** *** The loop *)

(** The variables of the loop. *)
Record Best : Type := mkBest {
  bestExact : string;
  bestExactLen : Z;
  bestPartial : string;
  bestPartialLen : Z
}.

Definition initBest : Best :=
  {| bestExact := EmptyString; bestExactLen := maxInt;
     bestPartial := EmptyString; bestPartialLen := maxInt |}.

(** Lines 275-279: the base name of a line. *)
Definition baseName (path : string) : string :=
  let lastSlash := LastIndexByte path slash in
  if 0 <=? lastSlash then sliceFrom (Z.to_nat (lastSlash + 1)) path else path.

(** The tier the loop body puts a line in, see [classify]. *)
Inductive Tier : Type := Exact | Partial | NoMatch.

(** Lines 300-307. *)
Definition notFound (term : string) : error :=
  ErrorString ("directory not found: " ++ term).

Definition choose (term : string) (b : Best) : string + error :=
  if negb (String.eqb (bestExact b) EmptyString) then inl (bestExact b)
  else if negb (String.eqb (bestPartial b) EmptyString) then inl (bestPartial b)
  else inr (notFound term).

Section WithTables.

Context {tables : CaseTables}.

(** The tests of lines 284 and 292. *)
Definition exactTest (term path : string) : bool :=
  String.eqb (ToLower (baseName path)) (ToLower term).

Definition partialTest (term path : string) : bool :=
  Contains (ToLower (baseName path)) (ToLower term).

(** The exact test comes first and ends the iteration ([continue]), so the
    partial test is only reached by a line that is not exact. *)
Definition classify (term path : string) : Tier :=
  if exactTest term path then Exact
  else if partialTest term path then Partial
  else NoMatch.

(** One iteration of the loop of lines 272-298. *)
Definition step (termLower : string) (b : Best) (path : string) : Best :=
  let lastSlash := LastIndexByte path slash in
  let name := if 0 <=? lastSlash
              then sliceFrom (Z.to_nat (lastSlash + 1)) path else path in
  let nameLower := ToLower name in
  let pathLen := len path in
  if String.eqb nameLower termLower then
    if pathLen <? bestExactLen b then
      {| bestExact := path; bestExactLen := pathLen;
         bestPartial := bestPartial b; bestPartialLen := bestPartialLen b |}
    else b
  else if Contains nameLower termLower then
    if pathLen <? bestPartialLen b then
      {| bestExact := bestExact b; bestExactLen := bestExactLen b;
         bestPartial := path; bestPartialLen := pathLen |}
    else b
  else b.

(** The whole loop over the tokens it reads. *)
Definition scan (term : string) (body : list string) : Best :=
  fold_left (step (ToLower term)) body initBest.

(** [searchDatabaseOptimized(dbPath, term)], where [db] is what [os.Open]
    gives for [dbPath]: the contents of the file, or an error. The first
    [scanner.Scan()], line 262, is to skip the header; its result is not
    looked at, and the loop goes on with the calls that follow it. *)
Definition searchDatabaseOptimized (db : string + error) (term : string)
  : string + error :=
  match db with
  | inr err => inr (ErrorString ("could not open database: " ++ Error err))
  | inl content =>
      let calls := scanCalls (splitLines content) in
      let body := loopTokens (tl calls) in
      choose term (scan term body)
  end.

End WithTables.

(** What the loop reads of a snapshot file: the tokens delivered after the
    first call of [Scan]. *)
Definition body (content : string) : list string :=
  loopTokens (tl (scanCalls (splitLines content))).

End Resolver.

(** ** The Indexer: [generateDatabase] *)

Module Indexer.

(** *** The file system *)

(** A directory entry as [os.ReadDir] lists it, with what lies below it:
    something that is not a directory (a file, a symbolic link, ...), or a
    directory with the entries [os.ReadDir] returns for it and the error it
    reports, if any. *)
Inductive DirEntry : Type :=
| Other (name : string)
| Dir (name : string) (entries : list DirEntry) (readErr : option error).

(** [d.Name()] and [d.IsDir()]. [WalkDir] hands a nil entry to its function
    only together with an error, and the function of [generateDatabase]
    returns on the error before it looks at the entry. *)
Definition Name (d : option DirEntry) : string :=
  match d with
  | Some (Other name) => name
  | Some (Dir name _ _) => name
  | None => EmptyString
  end.

Definition IsDir (d : option DirEntry) : bool :=
  match d with
  | Some (Dir _ _ _) => true
  | _ => false
  end.

(** What [os.Lstat(root)] finds: an error, something that is not a
    directory, or a directory. The name of the entry is not part of it:
    [FileInfo.Name()] is computed from the path, see [basename]. *)
Inductive Stat : Type :=
| StatErr (e : error)
| StatOther
| StatDir (entries : list DirEntry) (readErr : option error).

(** *** Paths: [os.basename], [filepath.Clean], [filepath.Join] (Unix) *)

Fixpoint allSlashes (s : string) : bool :=
  match s with
  | EmptyString => true
  | String c s' => Ascii.eqb c slash && allSlashes s'
  end.

(** The first loop of [basename]: trailing slashes are removed, the first
    byte is kept. *)
Fixpoint trimSlashes (s : string) : string :=
  match s with
  | EmptyString => EmptyString
  | String c s' => if allSlashes s' then String c EmptyString
                   else String c (trimSlashes s')
  end.

(** [basename(name)] of package [os]: the [Name()] of [os.Lstat(name)]. After
    the trailing slashes are gone the name either is the single byte it was
    cut down to, or does not end in a slash; the second loop cuts after the
    last slash before the final byte. *)
Definition basename (name : string) : string :=
  let t := trimSlashes name in
  let i := LastIndexByte t slash in
  if (String.length t <=? 1)%nat then t
  else if 0 <=? i then sliceFrom (Z.to_nat (i + 1)) t else t.

(** The elements of a path: the text between slashes. *)
Fixpoint splitFrom (cur : string) (s : string) : list string :=
  match s with
  | EmptyString => [cur]
  | String c s' =>
      if Ascii.eqb c slash then cur :: splitFrom EmptyString s'
      else splitFrom (cur ++ String c EmptyString) s'
  end.

Definition elements (path : string) : list string := splitFrom EmptyString path.

Definition rooted (path : string) : bool :=
  match path with
  | String c _ => Ascii.eqb c slash
  | EmptyString => false
  end.

(** One element read by [Clean]; [out] holds the elements kept so far, the
    last one first. An empty element and [.] are dropped; [..] removes the
    element before it, unless there is none to remove: then it is dropped in
    a rooted path and kept in a relative one. *)
Definition cleanStep (isRooted : bool) (out : list string) (e : string) : list string :=
  if String.eqb e EmptyString || String.eqb e "." then out
  else if String.eqb e ".." then
    match out with
    | top :: out' => if String.eqb top ".." then e :: out else out'
    | [] => if isRooted then [] else [e]
    end
  else e :: out.

(** [filepath.Clean(path)] *)
Definition Clean (path : string) : string :=
  let r := rooted path in
  let kept := rev (fold_left (cleanStep r) (elements path) []) in
  let out := (if r then "/" else EmptyString) ++ String.concat "/" kept in
  if String.eqb out EmptyString then "." else out.

(** [filepath.Join(dir, name)]: empty elements are ignored, the rest is
    joined with a slash and cleaned. *)
Definition Join (dir name : string) : string :=
  if negb (String.eqb dir EmptyString) then Clean (dir ++ "/" ++ name)
  else if negb (String.eqb name EmptyString) then Clean name
  else EmptyString.

(** *** The snapshot file and its writer *)

(** How the file behind [dbPath] behaves: whether [os.Create] fails, and for
    each operation on the writer (counted from 0: the calls of [WriteString]
    and the final [Flush]) the error it meets, if any. *)
Record Disk : Type := mkDisk {
  createErr : option error;
  fault : nat -> option error
}.

Definition healthy : Disk := {| createErr := None; fault := fun _ => None |}.

(** The buffered writer: the text accepted so far and the number of
    operations done. *)
Record Writer : Type := mkWriter {
  out : string;
  ops : nat
}.

Definition WriteString (dk : Disk) (w : Writer) (s : string) : Writer * option error :=
  match fault dk (ops w) with
  | Some e => ({| out := out w; ops := S (ops w) |}, Some e)
  | None => ({| out := out w ++ s; ops := S (ops w) |}, None)
  end.

Definition Flush (dk : Disk) (w : Writer) : Writer * option error :=
  ({| out := out w; ops := S (ops w) |}, fault dk (ops w)).

(** *** [filepath.WalkDir] *)

Definition WalkDirFunc : Type :=
  string -> option DirEntry -> option error -> Writer -> Writer * option error.

(** [walkDir(path, d, walkDirFn)] of [path/filepath]. *)
Fixpoint walkDir (fn : WalkDirFunc) (path : string) (d : DirEntry) (w : Writer)
  {struct d} : Writer * option error :=
  let (w1, err) := fn path (Some d) None w in
  match err with
  | Some e =>
      if isSkipDir e && IsDir (Some d) then (w1, None) else (w1, Some e)
  | None =>
      match d with
      | Other _ => (w1, None)
      | Dir _ dirs readErr =>
          let '(w2, ret) :=
            match readErr with
            | None => (w1, None)
            | Some re =>
                (* second call, to report the ReadDir error *)
                let (w2, err2) := fn path (Some d) (Some re) w1 in
                match err2 with
                | Some e => (w2, Some (if isSkipDir e then None else Some e))
                | None => (w2, None)
                end
            end in
          match ret with
          | Some r => (w2, r)
          | None =>
              (fix loop (ds : list DirEntry) (w : Writer) : Writer * option error :=
                 match ds with
                 | [] => (w, None)
                 | d1 :: ds' =>
                     let path1 := Join path (Name (Some d1)) in
                     let (w', err1) := walkDir fn path1 d1 w in
                     match err1 with
                     | Some e => if isSkipDir e then (w', None) else (w', Some e)
                     | None => loop ds' w'
                     end
                 end) dirs w2
          end
      end
  end.

(** The loop of [walkDir] over the entries of a directory, named. *)
Definition walkEntries (fn : WalkDirFunc) (path : string) :=
  fix loop (ds : list DirEntry) (w : Writer) : Writer * option error :=
    match ds with
    | [] => (w, None)
    | d1 :: ds' =>
        let path1 := Join path (Name (Some d1)) in
        let (w', err1) := walkDir fn path1 d1 w in
        match err1 with
        | Some e => if isSkipDir e then (w', None) else (w', Some e)
        | None => loop ds' w'
        end
    end.

(** The entry [WalkDir] makes for the root from the result of [os.Lstat]. *)
Definition rootEntry (root : string) (st : Stat) : option DirEntry :=
  match st with
  | StatErr _ => None
  | StatOther => Some (Other (basename root))
  | StatDir es re => Some (Dir (basename root) es re)
  end.

(** [filepath.WalkDir(root, fn)] *)
Definition WalkDir (root : string) (st : Stat) (fn : WalkDirFunc) (w : Writer)
  : Writer * option error :=
  let (w', err) :=
    match st with
    | StatErr e => fn root None (Some e) w
    | StatOther => walkDir fn root (Other (basename root)) w
    | StatDir es re => walkDir fn root (Dir (basename root) es re) w
    end in
  match err with
  | Some e => if isSkipDir e || isSkipAll e then (w', None) else (w', Some e)
  | None => (w', None)
  end.

(** *** [generateDatabase] *)

(** The function literal of lines 225-245. *)
Definition walkFn (dk : Disk) : WalkDirFunc :=
  fun path d err w =>
    match err with
    | Some _ => (w, Some SkipDir)
    | None =>
        if IsDir d && String.eqb (Name d) ".git" then (w, Some SkipDir)
        else if IsDir d then
          let (w', werr) := WriteString dk w (path ++ String LF EmptyString) in
          match werr with
          | Some e => (w', Some e)
          | None => (w', None)
          end
        else (w, None)
    end.

(** [generateDatabase(dbPath, baseDir)]: [dk] is the behaviour of the file at
    [dbPath], [st] what [os.Lstat(baseDir)] finds. The result is the error
    returned, or the contents of the snapshot file when nil is returned (after
    an error the file may hold any part of the output). *)
Definition generateDatabase (dk : Disk) (st : Stat) (baseDir : string)
  : string + error :=
  match createErr dk with
  | Some e => inr e
  | None =>
      let writer := {| out := EmptyString; ops := 0 |} in
      let (w1, err1) := WriteString dk writer (baseDir ++ String LF EmptyString) in
      match err1 with
      | Some e => inr e
      | None =>
          let (w2, err2) := WalkDir baseDir st (walkFn dk) w1 in
          match err2 with
          | Some e => inr e
          | None =>
              let (w3, err3) := Flush dk w2 in
              match err3 with
              | Some e => inr e
              | None => inl (out w3)
              end
          end
      end
  end.

End Indexer.

(** A file made of the given lines, each ended by a line feed. *)
Fixpoint unlines (ls : list string) : string :=
  match ls with
  | [] => EmptyString
  | l :: ls' => l ++ String LF (unlines ls')
  end.

(** ** Notions of the specification *)

(** [s] holds the byte [c]. *)
Fixpoint hasByte (c : ascii) (s : string) : bool :=
  match s with
  | EmptyString => false
  | String a s' => Ascii.eqb a c || hasByte c s'
  end.

(** [s] ends in the byte [c]. *)
Fixpoint endsIn (c : ascii) (s : string) : bool :=
  match s with
  | EmptyString => false
  | String a EmptyString => Ascii.eqb a c
  | String _ s' => endsIn c s'
  end.

(** Two bytes that are equal up to case: the same byte, or an upper-case
    ASCII letter and its lower-case form. *)
Definition SameLetter (a b : ascii) : Prop :=
  a = b \/ (isUpper a = true /\ b = lowerByte a)
        \/ (isUpper b = true /\ a = lowerByte b).

(** Two strings that are equal up to case, letter by letter. *)
Inductive EqFold : string -> string -> Prop :=
| EqFold_nil : EqFold EmptyString EmptyString
| EqFold_cons a b s t : SameLetter a b -> EqFold s t -> EqFold (String a s) (String b t).


(** Equal up to case, for any two strings, as [strings.ToLower] folds case:
    the two have the same lower-case form. For strings of ASCII bytes this
    is [EqFold], see [EqualUpToCase_ascii]. *)
Definition EqualUpToCase `{CaseTables} (s t : string) : Prop :=
  ToLower s = ToLower t.

(** [s] contains [t] up to case: the lower-case form of [t] is a substring
    of the lower-case form of [s]. For strings of ASCII bytes this is
    [ContainsFold], see [ContainsUpToCase_ascii]. *)
Definition ContainsUpToCase `{CaseTables} (s t : string) : Prop :=
  exists pre post, ToLower s = pre ++ ToLower t ++ post.

(** The base name of a line, in the words of the specification: what follows
    the last separator, or the whole line when it has none. *)
Definition IsBaseNameOf (name line : string) : Prop :=
  (hasByte slash line = false /\ name = line) \/
  (exists pre, line = pre ++ String slash name /\ hasByte slash name = false).

(** A length an [int] holds with a larger value to spare: true of every
    string a Go program holds. *)
Definition fits (p : string) : Prop := len p < Resolver.maxInt.

(** [r] is the best of the lines of [ls] that satisfy [P]: it is one of
    them, every such line before it is strictly longer, and none after it is
    shorter. *)
Definition FirstShortest (P : string -> bool) (ls : list string) (r : string) : Prop :=
  exists pre post,
    ls = (pre ++ r :: post)%list /\ P r = true /\
    (forall c, In c pre -> P c = true -> len r < len c) /\
    (forall c, In c post -> P c = true -> len r <= len c).

(** The same for a property of lines stated as a proposition. *)
Definition BestOf (C : string -> Prop) (ls : list string) (r : string) : Prop :=
  exists pre post,
    ls = (pre ++ r :: post)%list /\ C r /\
    (forall c, In c pre -> C c -> len r < len c) /\
    (forall c, In c post -> C c -> len r <= len c).

(** The candidates of the two tiers, in the words of the specification: a
    line whose base name equals the term up to case, and else a line whose
    base name contains the term up to case. *)
Definition ExactCandidate `{CaseTables} (term line : string) : Prop :=
  EqualUpToCase (Resolver.baseName line) term.

Definition PartialCandidate `{CaseTables} (term line : string) : Prop :=
  ContainsUpToCase (Resolver.baseName line) term /\
  ~ EqualUpToCase (Resolver.baseName line) term.

Definition inTier `{CaseTables} (t : Resolver.Tier) (term path : string) : bool :=
  match Resolver.classify term path, t with
  | Resolver.Exact, Resolver.Exact => true
  | Resolver.Partial, Resolver.Partial => true
  | Resolver.NoMatch, Resolver.NoMatch => true
  | _, _ => false
  end.

(** The two variables the loop keeps for a tier. *)
Definition slot (t : Resolver.Tier) (b : Resolver.Best) : string * Z :=
  match t with
  | Resolver.Exact => (Resolver.bestExact b, Resolver.bestExactLen b)
  | _ => (Resolver.bestPartial b, Resolver.bestPartialLen b)
  end.

(** What the variables of a tier hold once the lines [done] are read: their
    initial values when no line of [done] is in the tier, and the best line
    of the tier with its length otherwise. *)
Definition Kept (P : string -> bool) (done : list string) (v : string * Z) : Prop :=
  ((forall c, In c done -> P c = false) /\ v = (EmptyString, Resolver.maxInt)) \/
  (FirstShortest P done (fst v) /\ snd v = len (fst v)).

(** The update of lines 285-288 and 293-296 on the variables of a tier. *)
Definition keep (P : string -> bool) (v : string * Z) (path : string) : string * Z :=
  if P path then (if len path <? snd v then (path, len path) else v) else v.

(** The lines of a file as a text: what stands between its line feeds, a
    carriage return in front of a line feed belonging to the end of the
    line. The first is the header, the others are the body lines. *)
Definition fileLines (content : string) : list string :=
  map Resolver.dropCR (Resolver.splitLines content).

Definition bodyLines (content : string) : list string := tl (fileLines content).

(** A line the scanner takes in one piece: it is shorter than the buffer of
    the scanner. *)
Definition shortLine (l : string) : Prop := len l < Resolver.MaxScanTokenSize.

(** A file all of whose lines are short, and one whose first line is. *)
Definition ShortLines (content : string) : Prop :=
  Forall shortLine (Resolver.splitLines content).

Definition ShortHeader (content : string) : Prop :=
  match Resolver.splitLines content with
  | [] => True
  | h :: _ => shortLine h
  end.

(** [n] times the byte [c]. *)
Fixpoint repeatByte (c : ascii) (n : nat) : string :=
  match n with
  | O => EmptyString
  | S n' => String c (repeatByte c n')
  end.

(** A line of 64 KiB: the byte x, as often as the buffer of the scanner has
    room for. *)
Definition longLine : string :=
  repeatByte "x"%char (Z.to_nat Resolver.MaxScanTokenSize).

(** The table of the letters of Latin-1, to evaluate the embedding on: the
    upper-case letters U+00C0 to U+00DE, without the sign U+00D7, have their
    lower-case form 32 places on. (The tables of [unicode] agree with it up
    to U+00FF.) *)
Definition latin1Lower (r : N) : N :=
  (if (192 <=? r) && (r <=? 222) && negb (r =? 215) then r + 32 else r)%N.

#[global] Instance latin1 : CaseTables :=
  {| toLowerCase := latin1Lower;
     toLowerCase_letter :=
       ltac:(intros r H1 H2; exfalso; unfold latin1Lower in H2;
             destruct ((192 <=? r) && (r <=? 222) && negb (r =? 215))%N; lia) |}.

(** The string with the given bytes. *)
Definition bytes (l : list N) : string :=
  fold_right (fun n s => String (ascii_of_N n) s) EmptyString l.

(** A name [os.ReadDir] can list: not empty, without a separator, and
    neither [.] nor [..]. *)
Definition properName (n : string) : bool :=
  negb (String.eqb n EmptyString) && negb (hasByte slash n) &&
  negb (String.eqb n ".") && negb (String.eqb n "..").

(** A tree all of whose entries have such names. *)
Fixpoint wellNamed (d : Indexer.DirEntry) : bool :=
  match d with
  | Indexer.Other n => properName n
  | Indexer.Dir n es _ => properName n && forallb wellNamed es
  end.

(** The absolute path with the given elements, in its clean form. *)
Definition absPath (elems : list string) : string :=
  String slash (String.concat "/" elems).

(** The entries [os.ReadDir] lists for the root. *)
Definition statEntries (st : Indexer.Stat) : list Indexer.DirEntry :=
  match st with
  | Indexer.StatDir es _ => es
  | _ => []
  end.

(** The paths [WalkDir] makes [generateDatabase] write for the entry [d]
    found at [path], in the order of the walk. *)
Fixpoint walkPaths (path : string) (d : Indexer.DirEntry) : list string :=
  match d with
  | Indexer.Other _ => []
  | Indexer.Dir name es readErr =>
      if String.eqb name ".git" then []
      else path ::
           match readErr with
           | Some _ => []
           | None => flat_map (fun d1 => walkPaths (Indexer.Join path (Indexer.Name (Some d1))) d1) es
           end
  end.

Definition indexed (root : string) (st : Indexer.Stat) : list string :=
  match Indexer.rootEntry root st with
  | None => []
  | Some d => walkPaths root d
  end.

(** [Descends d chain d']: [d'] is found from the directory [d] by going
    down through the entries named in [chain], each one listed by a directory
    that [os.ReadDir] reads without error. *)
Inductive Descends : Indexer.DirEntry -> list string -> Indexer.DirEntry -> Prop :=
| Descends_here d : Descends d [] d
| Descends_down name es d1 chain d' :
    In d1 es -> Descends d1 chain d' ->
    Descends (Indexer.Dir name es None) (Indexer.Name (Some d1) :: chain) d'.

(** The first error met by the [n] operations on the writer that start with
    operation number [k]. *)
Fixpoint firstFault (f : nat -> option error) (k n : nat) : option error :=
  match n with
  | O => None
  | S n' =>
      match f k with
      | Some e => Some e
      | None => firstFault f (S k) n'
      end
  end.

(** An error that is not one of the sentinels of [io/fs]: every error of the
    operating system is one. *)
Definition osError (e : error) : Prop := isSkipDir e = false /\ isSkipAll e = false.

(** A line that is read back as it was written: it holds no line feed and
    does not end in a carriage return. *)
Definition plainLine (l : string) : Prop := hasByte LF l = false /\ endsIn CR l = false.

(** ** The command line: [main] and its helpers *)

Module Cli.

(** *** Constants and configuration *)

Definition version : string := "0.4-direct".
Definition dbFilename : string := ".lcd-tree.txt".

(** [Config] holds the command line arguments. *)
Record Config : Type := mkConfig {
  help : bool;
  showVersion : bool;   (* the field [version] *)
  verbose : bool;
  printOnly : bool;
  copyToClip : bool;
  rescan : bool;
  newBaseDir : string;
  searchTerm : string
}.

(** The zero value [var cfg Config], which is also what the defaults of the
    flags give. *)
Definition zeroConfig : Config :=
  {| help := false; showVersion := false; verbose := false; printOnly := false;
     copyToClip := false; rescan := false;
     newBaseDir := EmptyString; searchTerm := EmptyString |}.

(** *** [parseFlags] *)

(** The flags [parseFlags] defines, by name. *)
Inductive Flag : Type :=
| FHelp | FVersion | FVerbose | FPrint | FCopy | FRescan | FNewBaseDir.

Definition formal (name : string) : option Flag :=
  if String.eqb name "h" then Some FHelp
  else if String.eqb name "help" then Some FHelp
  else if String.eqb name "version" then Some FVersion
  else if String.eqb name "v" then Some FVerbose
  else if String.eqb name "verbose" then Some FVerbose
  else if String.eqb name "print" then Some FPrint
  else if String.eqb name "copy" then Some FCopy
  else if String.eqb name "rescan" then Some FRescan
  else if String.eqb name "newbasedir" then Some FNewBaseDir
  else None.

Definition isBoolFlag (f : Flag) : bool :=
  match f with FNewBaseDir => false | _ => true end.

(** The variable a boolean flag is bound to by [flag.BoolVar]. *)
Definition setBool (f : Flag) (b : bool) (cfg : Config) : Config :=
  match f with
  | FHelp => {| help := b; showVersion := showVersion cfg; verbose := verbose cfg;
                printOnly := printOnly cfg; copyToClip := copyToClip cfg;
                rescan := rescan cfg; newBaseDir := newBaseDir cfg;
                searchTerm := searchTerm cfg |}
  | FVersion => {| help := help cfg; showVersion := b; verbose := verbose cfg;
                   printOnly := printOnly cfg; copyToClip := copyToClip cfg;
                   rescan := rescan cfg; newBaseDir := newBaseDir cfg;
                   searchTerm := searchTerm cfg |}
  | FVerbose => {| help := help cfg; showVersion := showVersion cfg; verbose := b;
                   printOnly := printOnly cfg; copyToClip := copyToClip cfg;
                   rescan := rescan cfg; newBaseDir := newBaseDir cfg;
                   searchTerm := searchTerm cfg |}
  | FPrint => {| help := help cfg; showVersion := showVersion cfg; verbose := verbose cfg;
                 printOnly := b; copyToClip := copyToClip cfg;
                 rescan := rescan cfg; newBaseDir := newBaseDir cfg;
                 searchTerm := searchTerm cfg |}
  | FCopy => {| help := help cfg; showVersion := showVersion cfg; verbose := verbose cfg;
                printOnly := printOnly cfg; copyToClip := b;
                rescan := rescan cfg; newBaseDir := newBaseDir cfg;
                searchTerm := searchTerm cfg |}
  | FRescan => {| help := help cfg; showVersion := showVersion cfg; verbose := verbose cfg;
                  printOnly := printOnly cfg; copyToClip := copyToClip cfg;
                  rescan := b; newBaseDir := newBaseDir cfg;
                  searchTerm := searchTerm cfg |}
  | FNewBaseDir => cfg
  end.

(** The variable [flag.StringVar] binds [newbasedir] to. *)
Definition setNewBaseDir (v : string) (cfg : Config) : Config :=
  {| help := help cfg; showVersion := showVersion cfg; verbose := verbose cfg;
     printOnly := printOnly cfg; copyToClip := copyToClip cfg;
     rescan := rescan cfg; newBaseDir := v; searchTerm := searchTerm cfg |}.

Definition setSearchTerm (v : string) (cfg : Config) : Config :=
  {| help := help cfg; showVersion := showVersion cfg; verbose := verbose cfg;
     printOnly := printOnly cfg; copyToClip := copyToClip cfg;
     rescan := rescan cfg; newBaseDir := newBaseDir cfg; searchTerm := v |}.

(** [strconv.ParseBool] *)
Definition ParseBool (s : string) : option bool :=
  if existsb (String.eqb s) ["1"; "t"; "T"; "TRUE"; "true"; "True"] then Some true
  else if existsb (String.eqb s) ["0"; "f"; "F"; "FALSE"; "false"; "False"] then Some false
  else None.

(** The errors of [flag.Parse]. *)
Inductive ParseError : Type :=
| BadSyntax (arg : string)
| NotDefined (name : string)
| InvalidBool (value name : string)
| NeedsArgument (name : string).

(** The loop of [parseOne] over a flag name: the name is cut at the first
    equals sign that is not its first byte. [seen] is the part before the
    byte looked at. *)
Fixpoint cutAtEquals (seen : string) (s : string) : string * option string :=
  match s with
  | EmptyString => (seen, None)
  | String c s' =>
      if Ascii.eqb c "="%char then (seen, Some s')
      else cutAtEquals (seen ++ String c EmptyString) s'
  end.

Definition splitValue (name : string) : string * option string :=
  match name with
  | EmptyString => (EmptyString, None)
  | String c s' => cutAtEquals (String c EmptyString) s'
  end.

(** [flag.Parse()]: [parseOne] as long as it sees a flag. The result is the
    configuration and the arguments left over, [flag.Args()]. *)
Fixpoint parse (args : list string) (cfg : Config) : Config * list string + ParseError :=
  match args with
  | [] => inl (cfg, [])
  | s :: rest =>
      match s with
      | String "-" (String c1 s2) =>
          let name := if Ascii.eqb c1 "-"%char then s2 else String c1 s2 in
          if Ascii.eqb c1 "-"%char && String.eqb s2 EmptyString then
            (* "--" terminates the flags *)
            inl (cfg, rest)
          else
            match name with
            | EmptyString => inr (BadSyntax s)
            | String n0 _ =>
                if Ascii.eqb n0 "-"%char || Ascii.eqb n0 "="%char then inr (BadSyntax s)
                else
                  let (name', value) := splitValue name in
                  match formal name' with
                  | None => inr (NotDefined name')
                  | Some f =>
                      if isBoolFlag f then
                        match value with
                        | Some v =>
                            match ParseBool v with
                            | Some b => parse rest (setBool f b cfg)
                            | None => inr (InvalidBool v name')
                            end
                        | None => parse rest (setBool f true cfg)
                        end
                      else
                        match value with
                        | Some v => parse rest (setNewBaseDir v cfg)
                        | None =>
                            match rest with
                            | v :: rest' => parse rest' (setNewBaseDir v cfg)
                            | [] => inr (NeedsArgument name')
                            end
                        end
                  end
            end
      | _ =>
          (* shorter than two bytes, or not starting with a minus *)
          inl (cfg, args)
      end
  end.

(** [parseFlags()], from the arguments after the program name. *)
Definition parseFlags (osArgs : list string) : Config + ParseError :=
  match parse osArgs zeroConfig with
  | inr e => inr e
  | inl (cfg, args) =>
      match args with
      | [] => inl cfg
      | _ => inl (setSearchTerm (String.concat " " args) cfg)
      end
  end.

(** *** The process and its environment *)

(** The file at [dbPath]: missing, or present with its contents and the
    error [os.Open] meets on it, if any. *)
Inductive DbState : Type :=
| DbMissing
| DbPresent (content : string) (openErr : option error).

(** What the process has done to the file at [dbPath]: nothing, replaced it
    by a complete snapshot, or left it cut short by a failed scan. *)
Inductive DbWrite : Type :=
| Untouched
| Replaced (content : string)
| Damaged.

(** What the process meets outside itself. *)
Record World : Type := mkWorld {
  userHomeDir : string + error;          (* os.UserHomeDir() *)
  db : DbState;                          (* the file at dbPath *)
  lstat : string -> Indexer.Stat;        (* os.Lstat and os.ReadDir *)
  disk : Indexer.Disk;                   (* writing the file at dbPath *)
  getwd : string + error;                (* os.Getwd() *)
  chdir : string -> option error;        (* os.Chdir *)
  shellEnv : string;                     (* os.Getenv("SHELL") *)
  execErr : string -> option error;      (* syscall.Exec: an error, or none *)
  goos : string;                         (* runtime.GOOS *)
  lookPath : string -> bool;             (* exec.LookPath finds the tool *)
  runCmd : list string -> string -> option error; (* cmd.Run() with its stdin *)
  flagReport : ParseError -> string      (* what package flag prints for an error *)
}.

(** How the process ends: [os.Exit], or [syscall.Exec] replacing it by a
    shell in the working directory reached by [os.Chdir]. *)
Inductive Final : Type :=
| Exit (code : Z)
| ExecShell (shell : string) (argv : list string) (cwd : string).

(** What the process has done so far. *)
Record Proc : Type := mkProc {
  stdout : string;
  stderr : string;
  snapshot : DbWrite;
  commands : list (list string * string)   (* commands run, with their stdin *)
}.

Definition startProc : Proc :=
  {| stdout := EmptyString; stderr := EmptyString; snapshot := Untouched; commands := [] |}.

(** A step of the process: it goes on with a value, or ends. *)
Definition M (A : Type) : Type := Proc -> (A + Final) * Proc.

Definition ret {A : Type} (a : A) : M A := fun p => (inl a, p).

Definition bind {A B : Type} (c : M A) (k : A -> M B) : M B :=
  fun p =>
    match c p with
    | (inl a, p') => k a p'
    | (inr f, p') => (inr f, p')
    end.

Notation "x <- c ;; k" := (bind c (fun x => k))
  (at level 61, c at next level, right associativity).
Notation "c ;;; k" := (bind c (fun _ => k))
  (at level 61, right associativity).

Definition printOut (s : string) : M unit :=
  fun p => (inl tt, {| stdout := stdout p ++ s; stderr := stderr p;
                       snapshot := snapshot p; commands := commands p |}).

Definition printErr (s : string) : M unit :=
  fun p => (inl tt, {| stdout := stdout p; stderr := stderr p ++ s;
                       snapshot := snapshot p; commands := commands p |}).

Definition exit {A : Type} (code : Z) : M A := fun p => (inr (Exit code), p).

Definition when (b : bool) (c : M unit) : M unit := if b then c else ret tt.

(** [fatal(format, args...)], with the message already formatted. *)
Definition fatal {A : Type} (msg : string) : M A :=
  printErr ("Error: " ++ msg ++ String LF EmptyString) ;;; exit 1.

(** [printHelp()] *)
Definition helpText : string :=
  unlines
    ["lcd - Library Change Directory";
     "Usage: lcd [options] <directory_name_or_fragment>";
     EmptyString;
     "Description:";
     "  Fast directory navigation using a cached directory tree (~/.lcd-tree.txt).";
     "  First run will index your home directory automatically.";
     "  Typing exit in the CLI brings you back to the old directory.";
     ("  (C) 2025 by Alexander Dorn, MIT license, Ver. " ++ version);
     EmptyString;
     "Options:";
     "  --verbose, -v      Show detailed logs during operation";
     "  --print            Print the found path to stdout (do not cd)";
     "  --copy             Copy the found path to system clipboard";
     "  --rescan           Force a rescan of the filesystem";
     "  --newbasedir <dir> Set a new root directory for scanning (implies --rescan)";
     "  --version          Show version info";
     "  --help, -h         Show this help message";
     EmptyString;
     "Search Logic:";
     "  1. Searches for an Exact Match (case-insensitive) of the directory name.";
     "  2. If not found, searches for a Partial Match."].

Definition printHelp : M unit := printOut helpText.

(** [copyToClipboard(text)] *)
Definition copyToClipboard (w : World) (text : string) : M (option error) :=
  let run (cmd : list string) : M (option error) :=
    fun p => (inl (runCmd w cmd text),
              {| stdout := stdout p; stderr := stderr p; snapshot := snapshot p;
                 commands := commands p ++ [(cmd, text)] |}) in
  if String.eqb (goos w) "darwin" then run ["pbcopy"]
  else if String.eqb (goos w) "linux" then
    if lookPath w "xclip" then run ["xclip"; "-selection"; "clipboard"]
    else if lookPath w "wl-copy" then run ["wl-copy"]
    else ret (Some (ErrorString "no clipboard tool found"))
  else ret (Some (ErrorString "unsupported OS")).

(** [enterDirectory(targetPath)] *)
Definition enterDirectory (w : World) (targetPath : string) : M unit :=
  match getwd w with
   | inl currentDir =>
       when (String.eqb (Indexer.Clean currentDir) (Indexer.Clean targetPath))
            (printOut ("Already in: " ++ targetPath ++ String LF EmptyString) ;;; exit 0)
   | inr _ => ret tt
   end ;;;
  match chdir w targetPath with
   | Some err => fatal ("Could not enter directory " ++ targetPath ++ ": " ++ Error err)
   | None => ret tt
   end ;;;
  let shell := if String.eqb (shellEnv w) EmptyString then "/bin/sh" else shellEnv w in
  let args := [shell; "-i"] in
  printOut ("cd " ++ targetPath ++ String LF EmptyString) ;;;
  match execErr w shell with
  | None => fun p => (inr (ExecShell shell args targetPath), p)
  | Some err => fatal ("Failed to spawn new shell: " ++ Error err)
  end.

(** [strings.TrimSpace], on ASCII white space. *)
Definition isSpace (c : ascii) : bool :=
  let n := N_of_ascii c in ((9 <=? n) && (n <=? 13) || (n =? 32))%N.

Fixpoint trimLeft (s : string) : string :=
  match s with
  | EmptyString => EmptyString
  | String c s' => if isSpace c then trimLeft s' else s
  end.

Fixpoint trimRight (s : string) : string :=
  match s with
  | EmptyString => EmptyString
  | String c s' =>
      match trimRight s' with
      | EmptyString => if isSpace c then EmptyString else String c EmptyString
      | t => String c t
      end
  end.

Definition TrimSpace (s : string) : string := trimRight (trimLeft s).

(** [os.Open(dbPath)] *)
Definition openDb (dbPath : string) (st : DbState) : string + error :=
  match st with
  | DbMissing => inr (ErrorString ("open " ++ dbPath ++ ": no such file or directory"))
  | DbPresent content (Some e) => inr e
  | DbPresent content None => inl content
  end.

(** The base directory read from the header of the file, lines 85-95: the
    home directory unless the file opens, the first call of [Scan] returns
    true and its token, trimmed, is not empty. *)
Definition storedBaseDir (dbPath : string) (st : DbState) (homeDir : string) : string :=
  match openDb dbPath st with
  | inl content =>
      match Resolver.scanCalls (Resolver.splitLines content) with
      | Some line :: _ =>
          let storedBase := TrimSpace line in
          if negb (String.eqb storedBase EmptyString) then storedBase else homeDir
      | _ => homeDir
      end
  | inr _ => homeDir
  end.

(** The call of [generateDatabase] in the process: what it prints, what it
    does to the file, and the state of the file afterwards. The notice of
    line 224 is printed once the file is created and the header written. *)
Definition runGenerateDatabase (w : World) (st : DbState) (baseDir : string)
  : M (option error * DbState) :=
  fun p =>
    let notice :=
      match Indexer.createErr (disk w), Indexer.fault (disk w) 0%nat with
      | None, None => "(Re-)Scanning directory tree from " ++ baseDir ++ String LF EmptyString
      | _, _ => EmptyString
      end in
    match Indexer.generateDatabase (disk w) (lstat w baseDir) baseDir with
    | inl content =>
        let openErr := match st with DbPresent _ oe => oe | DbMissing => None end in
        (inl (None, DbPresent content openErr),
         {| stdout := stdout p ++ notice; stderr := stderr p;
            snapshot := Replaced content; commands := commands p |})
    | inr e =>
        (inl (Some e, st),
         {| stdout := stdout p ++ notice; stderr := stderr p;
            snapshot := match Indexer.createErr (disk w) with
                        | None => Damaged
                        | Some _ => snapshot p
                        end;
            commands := commands p |})
    end.

Section WithTables.

Context {tables : CaseTables}.

(** Lines 51-145 of [main()]: what follows [cfg := parseFlags()]. *)
Definition mainWith (cfg : Config) (w : World) : M unit :=
  when (help cfg) (printHelp ;;; exit 1) ;;;
  when (showVersion cfg)
       (printOut ("lcd version " ++ version ++ String LF EmptyString) ;;; exit 1) ;;;
  (* Determine DB path *)
  homeDir <- match userHomeDir w with
             | inl h => ret h
             | inr err => fatal ("Could not determine user home directory: " ++ Error err)
             end ;;
  let dbPath := Indexer.Join homeDir dbFilename in
  (* 1. Check if DB exists *)
  let missing := match db w with DbMissing => true | DbPresent _ _ => false end in
  when (missing && verbose cfg)
       (printErr ("Database not found at " ++ dbPath ++ ". Initializing..." ++ String LF EmptyString)) ;;;
  let rescan1 := rescan cfg || missing in
  (* 2. Determine Base Directory *)
  let baseDir :=
    if negb (String.eqb (newBaseDir cfg) EmptyString) then newBaseDir cfg
    else if negb rescan1 then storedBaseDir dbPath (db w) homeDir
    else homeDir in
  let rescan2 := rescan1 || negb (String.eqb (newBaseDir cfg) EmptyString) in
  (* 3. Rescan if required *)
  st <- (if rescan2 then
           when (verbose cfg)
                (printErr ("Scanning directories starting from: " ++ baseDir ++ String LF EmptyString)) ;;;
           r <- runGenerateDatabase w (db w) baseDir ;;
           match fst r with
           | Some err => fatal ("Error generating database: " ++ Error err)
           | None => ret tt
           end ;;;
           when (verbose cfg)
                (printErr ("Scan complete. Database saved." ++ String LF EmptyString)) ;;;
           when (String.eqb (searchTerm cfg) EmptyString)
                (printErr "Database updated." ;;; exit 1) ;;;
           ret (snd r)
         else ret (db w)) ;;
  (* 4. Perform Search *)
  when (String.eqb (searchTerm cfg) EmptyString)
       (fatal "Please provide a directory name to search for.") ;;;
  found <- match Resolver.searchDatabaseOptimized (openDb dbPath st) (searchTerm cfg) with
           | inl m => ret m
           | inr err => fatal (Error err)
           end ;;
  (* 5. Handle "Print" or "Copy" Actions *)
  when (printOnly cfg) (printOut (found ++ String LF EmptyString) ;;; exit 0) ;;;
  when (copyToClip cfg)
       (cerr <- copyToClipboard w found ;;
        match cerr with
        | Some err => fatal ("Failed to copy to clipboard: " ++ Error err)
        | None => ret tt
        end ;;;
        printOut ("Copied to clipboard: " ++ found ++ String LF EmptyString) ;;; exit 0) ;;;
  (* 6. Direct change of directory *)
  enterDirectory w found.

(** [parseFlags()] inside the process: the flag set of the command line
    exits on an error ([flag.ExitOnError]); it prints its report and ends
    the process with status 2. *)
Definition parseFlagsOrExit (w : World) (osArgs : list string) : M Config :=
  match parseFlags osArgs with
  | inl cfg => ret cfg
  | inr e => printErr (flagReport w e) ;;; exit 2
  end.

(** [main()], from the arguments after the program name. *)
Definition main (osArgs : list string) (w : World) : M unit :=
  cfg <- parseFlagsOrExit w osArgs ;;
  mainWith cfg w.

(** The run of the process once the command line is parsed to [cfg]. *)
Definition runMain (cfg : Config) (w : World) : (unit + Final) * Proc :=
  mainWith cfg w startProc.

(** The whole run of the process. *)
Definition runProcess (osArgs : list string) (w : World) : (unit + Final) * Proc :=
  main osArgs w startProc.

End WithTables.

End Cli.

(** ** Notions for the command line *)

(** The environment [w] with another file at [dbPath]. *)
Definition withDb (w : Cli.World) (st : Cli.DbState) : Cli.World :=
  {| Cli.userHomeDir := Cli.userHomeDir w; Cli.db := st; Cli.lstat := Cli.lstat w;
     Cli.disk := Cli.disk w; Cli.getwd := Cli.getwd w; Cli.chdir := Cli.chdir w;
     Cli.shellEnv := Cli.shellEnv w; Cli.execErr := Cli.execErr w;
     Cli.goos := Cli.goos w; Cli.lookPath := Cli.lookPath w; Cli.runCmd := Cli.runCmd w;
     Cli.flagReport := Cli.flagReport w |}.

(** A scan is due: asked for, or no file yet, or a new root given. *)
Definition scanDue (cfg : Cli.Config) (w : Cli.World) : bool :=
  Cli.rescan cfg
  || match Cli.db w with Cli.DbMissing => true | Cli.DbPresent _ _ => false end
  || negb (String.eqb (Cli.newBaseDir cfg) EmptyString).

(** The root of a scan that is due. *)
Definition scanRoot (cfg : Cli.Config) (home : string) : string :=
  if negb (String.eqb (Cli.newBaseDir cfg) EmptyString) then Cli.newBaseDir cfg else home.

(** What a scan that is due does to the file. *)
Definition scanEffect (cfg : Cli.Config) (w : Cli.World) (home : string) : Cli.DbWrite :=
  match Indexer.generateDatabase (Cli.disk w) (Cli.lstat w (scanRoot cfg home)) (scanRoot cfg home) with
  | inl content => Cli.Replaced content
  | inr _ =>
      match Indexer.createErr (Cli.disk w) with
      | None => Cli.Damaged
      | Some _ => Cli.Untouched
      end
  end.

(** The file the search reads: the one found, or the one just written. *)
Definition dbSearched (cfg : Cli.Config) (w : Cli.World) (home : string) : Cli.DbState :=
  if scanDue cfg w then
    match Indexer.generateDatabase (Cli.disk w) (Cli.lstat w (scanRoot cfg home)) (scanRoot cfg home) with
    | inl content =>
        Cli.DbPresent content
          match Cli.db w with Cli.DbPresent _ oe => oe | Cli.DbMissing => None end
    | inr _ => Cli.db w
    end
  else Cli.db w.

(** The notice of line 224. *)
Definition scanNotice (root : string) : string :=
  "(Re-)Scanning directory tree from " ++ root ++ String LF EmptyString.

(** An option on the command line, as it can be written: a boolean flag,
    or the new root given as the next argument or after an equals sign;
    each with one or two dashes. *)
Inductive Opt : Type :=
| OBool (twoDashes : bool) (name : string)
| ONewBaseDir (twoDashes : bool) (value : string)
| ONewBaseDirEq (twoDashes : bool) (value : string).

Definition dashes (two : bool) : string := if two then "--" else "-".

(** The arguments an option is written with. *)
Definition render (o : Opt) : list string :=
  match o with
  | OBool d n => [dashes d ++ n]
  | ONewBaseDir d v => [dashes d ++ "newbasedir"; v]
  | ONewBaseDirEq d v => [dashes d ++ "newbasedir=" ++ v]
  end.

(** The boolean flags are those [parseFlags] defines. *)
Definition validOpt (o : Opt) : Prop :=
  match o with
  | OBool _ n => exists f, Cli.formal n = Some f /\ Cli.isBoolFlag f = true
  | _ => True
  end.

(** What an option sets. *)
Definition applyOpt (cfg : Cli.Config) (o : Opt) : Cli.Config :=
  match o with
  | OBool _ n =>
      match Cli.formal n with
      | Some f => Cli.setBool f true cfg
      | None => cfg
      end
  | ONewBaseDir _ v => Cli.setNewBaseDir v cfg
  | ONewBaseDirEq _ v => Cli.setNewBaseDir v cfg
  end.

(** An argument that is not a flag: shorter than two bytes, or not starting
    with a minus. *)
Definition positional (a : string) : bool :=
  match a with
  | String "-" (String _ _) => false
  | _ => true
  end.

(** The commands [copyToClipboard] can run. *)
Definition clipboardTools : list (list string) :=
  [["pbcopy"]; ["xclip"; "-selection"; "clipboard"]; ["wl-copy"]].

(** An environment and a command line to try the process on. *)
Definition sampleWorld : Cli.World :=
  {| Cli.userHomeDir := inl "/home/u";
     Cli.db := Cli.DbPresent (unlines ["/home/u"; "/home/u"; "/home/u/src"; "/home/u/src/lcd"]) None;
     Cli.lstat := fun _ => Indexer.StatDir [Indexer.Dir "music" [] None] None;
     Cli.disk := Indexer.healthy;
     Cli.getwd := inl "/tmp";
     Cli.chdir := fun _ => None;
     Cli.shellEnv := "/bin/bash";
     Cli.execErr := fun _ => None;
     Cli.goos := "linux";
     Cli.lookPath := fun tool => String.eqb tool "wl-copy";
     Cli.runCmd := fun _ _ => None;
     Cli.flagReport := fun _ => "Usage of lcd:" ++ String LF EmptyString |}.

Definition sampleConfig (term : string) : Cli.Config :=
  Cli.setSearchTerm term Cli.zeroConfig.

(** * Properties *)

(** ** The embedding on concrete inputs *)

Section Examples.

Context {tables : CaseTables}.

Example ex_maxInt : Resolver.maxInt = 2 ^ 63 - 1.
Proof. reflexivity. Qed.

Example ex_lines : fileLines (unlines ["/r"; "/a/foo"; EmptyString; "/a/foobar"])
                   = ["/r"; "/a/foo"; EmptyString; "/a/foobar"].
Proof. reflexivity. Qed.

Example ex_body : Resolver.body (unlines ["/r"; "/a/foo"; EmptyString; "/a/foobar"])
                  = ["/a/foo"; EmptyString; "/a/foobar"].
Proof. reflexivity. Qed.

Example ex_search1 :
  Resolver.searchDatabaseOptimized (inl (unlines ["/r"; "/a/foo"; "/a/foobar"])) "foo" = inl "/a/foo".
Proof. vm_compute. reflexivity. Qed.

Example ex_search2 :
  Resolver.searchDatabaseOptimized (inl (unlines ["/r"; "/a/x/proj"; "/proj"])) "PROJ" = inl "/proj".
Proof. vm_compute. reflexivity. Qed.

Example ex_clean :
  map Indexer.Clean ["/a/b/../c/./d//"; EmptyString; "../../a"; "/../a"; "a/.."; "a//b/"; "/"; "a/../../b"]
  = ["/a/c/d"; "."; "../../a"; "/a"; "."; "a/b"; "/"; "../b"].
Proof. vm_compute. reflexivity. Qed.

Example ex_basename :
  map Indexer.basename ["/a/b"; "/a/b//"; "/"; "//"; "."; "a"; EmptyString; "/x/.git/"]
  = ["b"; "b"; "/"; "/"; "."; "a"; EmptyString; ".git"].
Proof. vm_compute. reflexivity. Qed.

Example ex_gen1 :
  Indexer.generateDatabase Indexer.healthy
    (Indexer.StatDir [Indexer.Dir ".git" [Indexer.Dir "objects" [] None] None;
                      Indexer.Dir ".config" [Indexer.Other "f"] None;
                      Indexer.Other "file";
                      Indexer.Dir "locked" [Indexer.Dir "x" [] None] (Some (ErrorString "permission denied"));
                      Indexer.Dir "z" [] None] None) "/a"
  = inl (unlines ["/a"; "/a"; "/a/.config"; "/a/locked"; "/a/z"]).
Proof. vm_compute. reflexivity. Qed.

Example ex_write_fault :
  Indexer.generateDatabase
    {| Indexer.createErr := None;
       Indexer.fault := fun n => if Nat.eqb n 2 then Some (ErrorString "no space left on device") else None |}
    (Indexer.StatDir [Indexer.Dir "a" [] None; Indexer.Dir "b" [] None] None) "/srv"
  = inr (ErrorString "no space left on device").
Proof. vm_compute. reflexivity. Qed.

Example ex_open_fault :
  Resolver.searchDatabaseOptimized (inr (ErrorString "open /home/u/.lcd-tree.txt: permission denied")) "foo"
  = inr (ErrorString "could not open database: open /home/u/.lcd-tree.txt: permission denied").
Proof. reflexivity. Qed.

Example ex_first_seen_wins :
  Resolver.searchDatabaseOptimized (inl (unlines ["/r"; "/b/proj"; "/a/proj"; "/c/x/proj"])) "proj"
  = inl "/b/proj".
Proof. vm_compute. reflexivity. Qed.

Example ex_shortest_exact :
  Resolver.searchDatabaseOptimized (inl (unlines ["/r"; "/a/x/proj"; "/proj"])) "proj"
  = inl "/proj".
Proof. vm_compute. reflexivity. Qed.

Example ex_carriage_return :
  Resolver.scanCalls (Resolver.splitLines ("/r" ++ String CR (String LF ("/a" ++ String CR EmptyString))))
  = [Some "/r"; Some "/a"].
Proof. reflexivity. Qed.

Example ex_partial_fallback :
  Resolver.searchDatabaseOptimized (inl (unlines ["/a"; "/a/myprojectfolder"])) "proj"
  = inl "/a/myprojectfolder".
Proof. vm_compute. reflexivity. Qed.

(** The runes of a text, of bytes that are no UTF-8, and of sequences that
    are not the shortest or stand for a surrogate. *)
Example ex_runes :
  runes (bytes [195; 169; 226; 130; 172; 240; 159; 152; 128; 65; 255; 226; 130; 47;
                192; 128; 237; 160; 128]%N)
  = [233; 8364; 128512; 65; 65533; 65533; 65533; 47;
     65533; 65533; 65533; 65533; 65533]%N.
Proof. vm_compute. reflexivity. Qed.

Example ex_encode :
  map EncodeRune [233; 8364; 128512; 65533; 55296; 1114112]%N
  = [bytes [195; 169]; bytes [226; 130; 172]; bytes [240; 159; 152; 128];
     bytes [239; 191; 189]; bytes [239; 191; 189]; bytes [239; 191; 189]]%N.
Proof. vm_compute. reflexivity. Qed.

End Examples.

(** With the table of Latin-1: the upper-case E with acute accent, bytes 195
    137, and the lower-case one, bytes 195 169, are the same letter; and two
    bytes that are no UTF-8 are both read as U+FFFD. *)
Example ex_latin1_exact :
  Resolver.searchDatabaseOptimized
    (inl (unlines ["/r"; "/aaaa/" ++ bytes [195; 137]%N; "/" ++ bytes [195; 169]%N]))
    (bytes [195; 137]%N)
  = inl ("/" ++ bytes [195; 169]%N).
Proof. vm_compute. reflexivity. Qed.

Example ex_latin1_word :
  Resolver.searchDatabaseOptimized
    (inl (unlines ["/r"; "/r/" ++ bytes [195; 169]%N ++ "cole"]))
    (bytes [195; 137]%N ++ "COLE")
  = inl ("/r/" ++ bytes [195; 169]%N ++ "cole").
Proof. vm_compute. reflexivity. Qed.

Example ex_invalid_bytes :
  Resolver.searchDatabaseOptimized (inl (unlines ["/r"; "/r/" ++ bytes [254]%N])) (bytes [255]%N)
  = inl ("/r/" ++ bytes [254]%N).
Proof. vm_compute. reflexivity. Qed.

(** ** Strings *)

Section Strings.

Lemma append_nil_r (s : string) : s ++ EmptyString = s.
Proof. induction s as [|a s IH]; simpl; [reflexivity | now rewrite IH]. Qed.

Lemma append_assoc (s t u : string) : (s ++ t) ++ u = s ++ (t ++ u).
Proof. induction s as [|a s IH]; simpl; [reflexivity | now rewrite IH]. Qed.

Lemma len_nonneg (s : string) : 0 <= len s.
Proof. unfold len; lia. Qed.

Lemma len_String (a : ascii) (s : string) : len (String a s) = len s + 1.
Proof. unfold len; simpl String.length; lia. Qed.

Lemma sliceFrom_append (pre : string) (c : ascii) (post : string) :
  sliceFrom (S (String.length pre)) (pre ++ String c post) = post.
Proof. induction pre as [|a pre IH]; simpl; [reflexivity | exact IH]. Qed.

Lemma hasByte_append (c : ascii) (s t : string) :
  hasByte c (s ++ t) = hasByte c s || hasByte c t.
Proof.
  induction s as [|a s IH]; simpl; [reflexivity|].
  now rewrite IH, orb_assoc.
Qed.

(** What the scan of [lastIndexFrom] returns: [found] when the byte does not
    occur, and otherwise the position of an occurrence that no other one
    follows. *)
Lemma lastIndexFrom_spec (c : ascii) (s : string) :
  forall i found,
    (hasByte c s = false /\ lastIndexFrom i s c found = found) \/
    (exists pre post, s = pre ++ String c post /\ hasByte c post = false /\
                      lastIndexFrom i s c found = i + len pre).
Proof.
  induction s as [|a s IH]; intros i found; simpl.
  - left; split; reflexivity.
  - destruct (IH (i + 1) (if Ascii.eqb a c then i else found))
      as [[Hno Hr] | (pre & post & Hs & Hpost & Hr)].
    + destruct (Ascii.eqb_spec a c) as [->|Hac].
      * right. exists EmptyString, s. simpl. repeat split; try assumption.
        rewrite Hr. unfold len; simpl; lia.
      * left. simpl. split; assumption.
    + right. exists (String a pre), post. simpl. subst s.
      repeat split; try assumption. rewrite Hr, len_String. lia.
Qed.

Lemma LastIndexByte_spec (c : ascii) (s : string) :
  (hasByte c s = false /\ LastIndexByte s c = -1) \/
  (exists pre post, s = pre ++ String c post /\ hasByte c post = false /\
                    LastIndexByte s c = len pre).
Proof.
  unfold LastIndexByte.
  destruct (lastIndexFrom_spec c s 0 (-1)) as [H | (pre & post & H1 & H2 & H3)].
  - left; exact H.
  - right. exists pre, post. repeat split; assumption.
Qed.

(** The base name computed by lines 275-279 is the base name of the
    specification. *)
Lemma baseName_spec (path : string) : IsBaseNameOf (Resolver.baseName path) path.
Proof.
  unfold Resolver.baseName, IsBaseNameOf.
  destruct (LastIndexByte_spec slash path) as [[Hno Hi] | (pre & post & Hp & Hpost & Hi)];
    rewrite Hi.
  - left. split; [assumption | reflexivity].
  - right. exists pre.
    assert (Hge : (0 <=? len pre) = true) by (apply Z.leb_le, len_nonneg).
    rewrite Hge. unfold len.
    replace (Z.to_nat (Z.of_nat (String.length pre) + 1)) with (S (String.length pre)) by lia.
    subst path. rewrite sliceFrom_append. split; [reflexivity | assumption].
Qed.



Lemma baseName_empty : Resolver.baseName EmptyString = EmptyString.
Proof. reflexivity. Qed.

Lemma endsIn_append (c : ascii) (pre : string) :
  endsIn c (pre ++ String c EmptyString) = true.
Proof.
  induction pre as [|a pre IH]; simpl.
  - apply Ascii.eqb_refl.
  - destruct (pre ++ String c EmptyString) eqn:E.
    + destruct pre; discriminate.
    + exact IH.
Qed.

(** A line has an empty base name only when it is empty or ends in the
    separator. *)
Lemma baseName_nonempty (path : string) :
  path <> EmptyString -> endsIn slash path = false ->
  Resolver.baseName path <> EmptyString.
Proof.
  intros Hne Hend Hb.
  destruct (baseName_spec path) as [[_ E] | (pre & E & _)]; rewrite Hb in E.
  - now subst path.
  - rewrite E, endsIn_append in Hend. discriminate.
Qed.

End Strings.

(** ** Case folding and substrings *)

Section Folding.

Lemma raise_lowerByte (a : ascii) : isUpper a = true -> raiseByte (lowerByte a) = a.
Proof.
  destruct a as [[] [] [] [] [] [] [] []]; intros H;
    solve [discriminate H | reflexivity].
Qed.

Lemma lowerByte_not_upper (a : ascii) : isUpper (lowerByte a) = false.
Proof. destruct a as [[] [] [] [] [] [] [] []]; reflexivity. Qed.

Lemma lowerByte_idem (a : ascii) : lowerByte (lowerByte a) = lowerByte a.
Proof.
  unfold lowerByte at 1. now rewrite lowerByte_not_upper.
Qed.

Lemma lowerByte_fixed (a : ascii) : isUpper a = false -> lowerByte a = a.
Proof. intros H. unfold lowerByte. now rewrite H. Qed.

(** Two bytes have the same lower-case form exactly when they are the same
    letter. *)
Lemma lowerByte_eq_iff (a b : ascii) : lowerByte a = lowerByte b <-> SameLetter a b.
Proof.
  unfold SameLetter. split.
  - intros H.
    destruct (isUpper a) eqn:Ha, (isUpper b) eqn:Hb.
    + left. rewrite <- (raise_lowerByte a Ha), <- (raise_lowerByte b Hb). now rewrite H.
    + right; left. split; [reflexivity|]. now rewrite H, (lowerByte_fixed b Hb).
    + right; right. split; [reflexivity|]. now rewrite <- H, (lowerByte_fixed a Ha).
    + left. now rewrite <- (lowerByte_fixed a Ha), <- (lowerByte_fixed b Hb).
  - intros [-> | [[_ ->] | [_ ->]]].
    + reflexivity.
    + now rewrite lowerByte_idem.
    + now rewrite lowerByte_idem.
Qed.

Lemma lowerBytes_eq_iff (s t : string) : lowerBytes s = lowerBytes t <-> EqFold s t.
Proof.
  split.
  - revert t. induction s as [|a s IH]; intros [|b t] H; simpl in H; try discriminate.
    + constructor.
    + inversion H. constructor; [now apply lowerByte_eq_iff | now apply IH].
  - induction 1 as [|a b s t Hab _ IH]; simpl; [reflexivity|].
    apply lowerByte_eq_iff in Hab. now rewrite Hab, IH.
Qed.



Lemma EqFold_refl (s : string) : EqFold s s.
Proof. now apply lowerBytes_eq_iff. Qed.


Lemma HasPrefix_spec (s p : string) :
  HasPrefix s p = true <-> exists post, s = p ++ post.
Proof.
  revert s. induction p as [|b p IH]; intros s.
  - split; [intros _; now exists s | intros _; now destruct s].
  - destruct s as [|a s]; cbn [HasPrefix].
    + split; [discriminate | intros [post H]; discriminate].
    + rewrite andb_true_iff, Ascii.eqb_eq, IH. split.
      * intros [-> [post ->]]. now exists post.
      * intros [post H]. inversion H. split; [reflexivity | now exists post].
Qed.

(** [strings.Contains] finds the substrings. *)
Lemma Contains_spec (s sub : string) :
  Contains s sub = true <-> exists pre post, s = pre ++ sub ++ post.
Proof.
  induction s as [|a s IH]; cbn [Contains].
  - rewrite orb_false_r, HasPrefix_spec. split.
    + intros [post H]. now exists EmptyString, post.
    + intros (pre & post & H). destruct pre; [now exists post | discriminate].
  - rewrite orb_true_iff, HasPrefix_spec, IH. split.
    + intros [[post H] | (pre & post & H)].
      * now exists EmptyString, post.
      * exists (String a pre), post. simpl. now rewrite H.
    + intros (pre & post & H). destruct pre as [|x pre]; simpl in H.
      * left. now exists post.
      * right. inversion H. now exists pre, post.
Qed.

Lemma Contains_refl (s : string) : Contains s s = true.
Proof.
  apply Contains_spec. exists EmptyString, EmptyString. simpl.
  now rewrite append_nil_r.
Qed.

Lemma Contains_empty (s : string) : Contains s EmptyString = true.
Proof. apply Contains_spec. now exists EmptyString, s. Qed.

Lemma isASCII_append (s t : string) : isASCII (s ++ t) = isASCII s && isASCII t.
Proof.
  induction s as [|a s IH]; cbn [append isASCII]; [reflexivity|].
  now rewrite IH, andb_assoc.
Qed.

Lemma append_empty (s t : string) : s ++ t = EmptyString -> s = EmptyString /\ t = EmptyString.
Proof. destruct s; cbn; [now split | discriminate]. Qed.

Lemma EncodeRune_nonempty (r : N) : EncodeRune r <> EmptyString.
Proof.
  unfold EncodeRune.
  repeat match goal with |- context [if ?c then _ else _] => destruct c end;
    discriminate.
Qed.

Lemma runes_nonempty (s : string) : s <> EmptyString -> runes s <> [].
Proof.
  destruct s as [|b0 s1]; [contradiction|]. intros _. cbn [runes].
  repeat match goal with
         | |- context [if ?c then _ else _] => destruct c
         | |- context [match ?c with _ => _ end] => destruct c
         end; discriminate.
Qed.

Section WithTables.

Context {tables : CaseTables}.


Lemma ToLower_EmptyString : ToLower EmptyString = EmptyString.
Proof. reflexivity. Qed.

(** The lower-case form of a string is empty only for the empty string: no
    rune is dropped. *)
Lemma ToLower_empty (s : string) : ToLower s = EmptyString -> s = EmptyString.
Proof.
  unfold ToLower. destruct (isASCII s).
  - destruct s; cbn; [reflexivity | discriminate].
  - unfold Map. intros E. destruct s as [|b0 s1]; [reflexivity|]. exfalso.
    assert (Hr : runes (String b0 s1) <> []) by (apply runes_nonempty; discriminate).
    destruct (runes (String b0 s1)) as [|r rs]; [contradiction|].
    cbn [map writeRunes] in E. apply append_empty in E as [E _].
    exact (EncodeRune_nonempty _ E).
Qed.

End WithTables.

End Folding.

(** ** Runes *)

Section Runes.

(** Arithmetic with quotients and remainders by constants. *)
Ltac arith := zify; Z.to_euclidean_division_equations; lia.

Lemma lowerByte_beyond (b : ascii) :
  (N_of_ascii b <? 128)%N = false -> lowerByte b = b.
Proof.
  destruct b as [[] [] [] [] [] [] [] []]; intros E;
    solve [discriminate E | reflexivity].
Qed.

Lemma lowerByte_within (b : ascii) :
  (N_of_ascii (lowerByte b) <? 128)%N = (N_of_ascii b <? 128)%N.
Proof. destruct b as [[] [] [] [] [] [] [] []]; reflexivity. Qed.

Lemma lowerByte_lowerASCII (b : ascii) :
  (N_of_ascii b <? 128)%N = true ->
  N_of_ascii (lowerByte b) = lowerASCII (N_of_ascii b).
Proof.
  destruct b as [[] [] [] [] [] [] [] []]; intros E;
    solve [discriminate E | reflexivity].
Qed.

Lemma leading_range (n0 : N) (size : nat) (lo hi : N) :
  leading n0 = Some (size, lo, hi) ->
  (128 <= lo /\ hi <= 191 /\ 194 <= n0 <= 244)%N /\
  ((size = 2%nat /\ 2 <= n0 mod 32)%N \/
   (size = 3%nat /\ (1 <= n0 mod 16 \/ 160 <= lo))%N \/
   (size = 4%nat /\ (1 <= n0 mod 8 \/ 144 <= lo))%N).
Proof.
  unfold leading.
  repeat match goal with
         | |- context [if ?c then _ else _] => destruct c eqn:?
         end;
    intros E; inversion E; subst; clear E;
    repeat match goal with
           | H : (_ && _)%bool = true |- _ => apply andb_true_iff in H as [? ?]
           | H : (_ <=? _)%N = true |- _ => apply N.leb_le in H
           | H : (_ =? _)%N = true |- _ => apply N.eqb_eq in H
           | H : _ = false |- _ => clear H
           end;
    (split; [lia|]); subst;
    first [ left; split; [reflexivity|]; arith
          | right; left; split; [reflexivity|];
            first [right; lia | left; arith]
          | right; right; split; [reflexivity|];
            first [right; lia | left; arith] ].
Qed.

Lemma continuation_range (lo hi : N) (b : ascii) (x : N) :
  continuation lo hi b = Some x ->
  (lo <= N_of_ascii b <= hi /\ x = N_of_ascii b mod 64)%N.
Proof.
  unfold continuation.
  destruct ((lo <=? N_of_ascii b) && (N_of_ascii b <=? hi))%N eqn:E; [|discriminate].
  apply andb_true_iff in E as [E1 E2]. apply N.leb_le in E1, E2.
  intros Hx; inversion Hx. lia.
Qed.

Lemma continuation_lowerByte (lo hi : N) (b : ascii) :
  (128 <= lo)%N -> continuation lo hi (lowerByte b) = continuation lo hi b.
Proof.
  intros Hlo. destruct (N_of_ascii b <? 128)%N eqn:E.
  - unfold continuation.
    assert (E' := lowerByte_within b). rewrite E in E'.
    apply N.ltb_lt in E, E'.
    assert (H1 : (lo <=? N_of_ascii b)%N = false) by (apply N.leb_gt; lia).
    assert (H2 : (lo <=? N_of_ascii (lowerByte b))%N = false) by (apply N.leb_gt; lia).
    now rewrite H1, H2.
  - now rewrite lowerByte_beyond.
Qed.

(** The runes of a string whose letters A to Z are lowered. *)
Lemma runes_lowerBytes (s : string) :
  runes (lowerBytes s) = map lowerASCII (runes s).
Proof.
  assert (Hn : forall n s, (String.length s <= n)%nat ->
                           runes (lowerBytes s) = map lowerASCII (runes s)).
  { clear s. induction n as [|n IH]; intros s Hs.
    - destruct s; [reflexivity | cbn in Hs; lia].
    - destruct s as [|b0 s1]; [reflexivity|].
      cbn [String.length] in Hs.
      assert (IH1 : runes (lowerBytes s1) = map lowerASCII (runes s1)) by (apply IH; lia).
      cbn [lowerBytes runes]. rewrite lowerByte_within.
      destruct (N_of_ascii b0 <? 128)%N eqn:E0.
      + cbn [map]. now rewrite lowerByte_lowerASCII, IH1.
      + rewrite (lowerByte_beyond b0 E0), IH1.
        assert (Hinv : lowerASCII RuneError = RuneError) by reflexivity.
        destruct (leading (N_of_ascii b0)) as [[[size lo] hi]|] eqn:EL;
          [|cbn [map]; now rewrite Hinv].
        destruct (leading_range _ _ _ _ EL) as [(Hlo & Hhi & Hn0) Hsize].
        destruct s1 as [|b1 s2]; [reflexivity|].
        cbn [lowerBytes]. rewrite (continuation_lowerByte lo hi b1 Hlo).
        cbn [String.length] in Hs.
        destruct (continuation lo hi b1) as [x1|] eqn:E1;
          [|cbn [map]; now rewrite Hinv].
        assert (Hbig : forall r, (128 <= r)%N -> lowerASCII r = r).
        { intros r Hr. unfold lowerASCII.
          destruct (65 <=? r)%N eqn:Ea; [|reflexivity].
          destruct (r <=? 90)%N eqn:Eb; [|reflexivity].
          apply N.leb_le in Eb. lia. }
        apply continuation_range in E1 as [Hb1 Hx1].
        destruct Hsize as [[-> H2] | [[-> H3] | [-> H4]]].
        * cbn [map]. rewrite (IH s2) by lia. f_equal. symmetry. apply Hbig. arith.
        * destruct s2 as [|b2 s3]; [cbn [map lowerBytes]; now rewrite Hinv|].
          cbn [lowerBytes]. rewrite (continuation_lowerByte 128 191 b2) by lia.
          cbn [String.length] in Hs.
          destruct (continuation 128 191 b2) as [x2|] eqn:E2;
            [|cbn [map]; now rewrite Hinv].
          cbn [map]. rewrite (IH s3) by lia. f_equal. symmetry. apply Hbig.
          subst x1. destruct H3 as [H3|H3]; arith.
        * destruct s2 as [|b2 s3]; [cbn [map lowerBytes]; now rewrite Hinv|].
          cbn [lowerBytes]. rewrite (continuation_lowerByte 128 191 b2) by lia.
          cbn [String.length] in Hs.
          destruct (continuation 128 191 b2) as [x2|] eqn:E2;
            [|cbn [map]; now rewrite Hinv].
          destruct s3 as [|b3 s4]; [cbn [map lowerBytes]; now rewrite Hinv|].
          cbn [lowerBytes]. rewrite (continuation_lowerByte 128 191 b3) by lia.
          cbn [String.length] in Hs.
          destruct (continuation 128 191 b3) as [x3|] eqn:E3;
            [|cbn [map]; now rewrite Hinv].
          cbn [map]. rewrite (IH s4) by lia. f_equal. symmetry. apply Hbig.
          subst x1. destruct H4 as [H4|H4]; arith. }
  exact (Hn (String.length s) s (Nat.le_refl _)).
Qed.

Lemma eqb_beyond (b c : ascii) :
  (128 <= N_of_ascii b)%N -> (N_of_ascii c < 128)%N -> Ascii.eqb b c = false.
Proof. intros Hb Hc. apply Ascii.eqb_neq. intros ->. lia. Qed.

(** The first rune of a string and what is left after it: an ASCII byte is
    a rune of its own, and any other rune read lies beyond ASCII and takes
    only bytes beyond ASCII. *)
Lemma runes_String (b0 : ascii) (s1 : string) :
  exists r rest,
    runes (String b0 s1) = r :: runes rest /\
    (String.length rest <= String.length s1)%nat /\
    ((r = N_of_ascii b0 /\ (r < 128)%N /\ rest = s1) \/
     ((128 <= r)%N /\ (128 <= N_of_ascii b0)%N /\
      forall c, (N_of_ascii c < 128)%N -> hasByte c (String b0 s1) = hasByte c rest)).
Proof.
  cbn [runes]. destruct (N_of_ascii b0 <? 128)%N eqn:E0.
  - exists (N_of_ascii b0), s1. apply N.ltb_lt in E0.
    split; [reflexivity|]. split; [lia|]. left. now repeat split.
  - apply N.ltb_ge in E0.
    assert (Hinv : exists r rest,
               RuneError :: runes s1 = r :: runes rest /\
               (String.length rest <= String.length s1)%nat /\
               ((r = N_of_ascii b0 /\ (r < 128)%N /\ rest = s1) \/
                ((128 <= r)%N /\ (128 <= N_of_ascii b0)%N /\
                 forall c, (N_of_ascii c < 128)%N ->
                           hasByte c (String b0 s1) = hasByte c rest))).
    { exists RuneError, s1. split; [reflexivity|]. split; [lia|]. right.
      split; [unfold RuneError; lia|]. split; [exact E0|].
      intros c Hc. cbn [hasByte]. now rewrite (eqb_beyond b0 c E0 Hc). }
    destruct (leading (N_of_ascii b0)) as [[[size lo] hi]|] eqn:EL; [|exact Hinv].
    destruct (leading_range _ _ _ _ EL) as [(Hlo & Hhi & Hn0) Hsize].
    destruct s1 as [|b1 s2]; [exact Hinv|].
    destruct (continuation lo hi b1) as [x1|] eqn:E1; [|exact Hinv].
    apply continuation_range in E1 as [Hb1 Hx1].
    destruct Hsize as [[-> H2] | [[-> H3] | [-> H4]]].
    + eexists _, s2. split; [reflexivity|]. split; [cbn; lia|]. right.
      split; [arith|]. split; [exact E0|].
      intros c Hc. cbn [hasByte].
      rewrite (eqb_beyond b0 c E0 Hc), (eqb_beyond b1 c) by lia. reflexivity.
    + destruct s2 as [|b2 s3]; [exact Hinv|].
      destruct (continuation 128 191 b2) as [x2|] eqn:E2; [|exact Hinv].
      apply continuation_range in E2 as [Hb2 Hx2].
      eexists _, s3. split; [reflexivity|]. split; [cbn; lia|]. right.
      split; [subst x1; destruct H3; arith|]. split; [exact E0|].
      intros c Hc. cbn [hasByte].
      rewrite (eqb_beyond b0 c E0 Hc), (eqb_beyond b1 c), (eqb_beyond b2 c) by lia.
      reflexivity.
    + destruct s2 as [|b2 s3]; [exact Hinv|].
      destruct (continuation 128 191 b2) as [x2|] eqn:E2; [|exact Hinv].
      apply continuation_range in E2 as [Hb2 Hx2].
      destruct s3 as [|b3 s4]; [exact Hinv|].
      destruct (continuation 128 191 b3) as [x3|] eqn:E3; [|exact Hinv].
      apply continuation_range in E3 as [Hb3 Hx3].
      eexists _, s4. split; [reflexivity|]. split; [cbn; lia|]. right.
      split; [subst x1; destruct H4; arith|]. split; [exact E0|].
      intros c Hc. cbn [hasByte].
      rewrite (eqb_beyond b0 c E0 Hc), (eqb_beyond b1 c), (eqb_beyond b2 c),
        (eqb_beyond b3 c) by lia.
      reflexivity.
Qed.

(** An ASCII byte occurs in a string exactly when it is one of its runes. *)
Lemma runes_hasByte (c : ascii) (s : string) :
  (N_of_ascii c < 128)%N ->
  existsb (N.eqb (N_of_ascii c)) (runes s) = hasByte c s.
Proof.
  intros Hc.
  assert (Hn : forall n s, (String.length s <= n)%nat ->
                           existsb (N.eqb (N_of_ascii c)) (runes s) = hasByte c s).
  { clear s. induction n as [|n IH]; intros s Hs.
    - destruct s; [reflexivity | cbn in Hs; lia].
    - destruct s as [|b0 s1]; [reflexivity|]. cbn [String.length] in Hs.
      destruct (runes_String b0 s1) as (r & rest & -> & Hlen & Hcase).
      cbn [existsb]. rewrite (IH rest) by lia.
      destruct Hcase as [(-> & Hr & ->) | (Hr & Hb0 & Hrest)].
      + cbn [hasByte]. f_equal.
        destruct (Ascii.eqb_spec b0 c) as [->|Hne]; [apply N.eqb_refl|].
        apply N.eqb_neq. intros E. apply Hne.
        rewrite <- (ascii_N_embedding b0), <- (ascii_N_embedding c). now rewrite E.
      + rewrite (Hrest c Hc).
        assert (E : (N_of_ascii c =? r)%N = false) by (apply N.eqb_neq; lia).
        now rewrite E. }
  exact (Hn (String.length s) s (Nat.le_refl _)).
Qed.

Lemma ascii_of_N_eqb (v : N) (c : ascii) :
  (v < 256)%N -> Ascii.eqb (ascii_of_N v) c = (N_of_ascii c =? v)%N.
Proof.
  intros Hv. destruct (Ascii.eqb_spec (ascii_of_N v) c) as [<-|Hne].
  - rewrite N_ascii_embedding by exact Hv. symmetry. apply N.eqb_refl.
  - symmetry. apply N.eqb_neq. intros E. apply Hne.
    now rewrite <- E, ascii_N_embedding.
Qed.

(** An ASCII byte occurs in the encoding of a rune only as the encoding of
    itself. *)
Lemma EncodeRune_hasByte (c : ascii) (r : N) :
  (N_of_ascii c < 128)%N ->
  hasByte c (EncodeRune r) = (N_of_ascii c =? r)%N.
Proof.
  intros Hc. unfold EncodeRune, MaxRune, RuneError.
  repeat match goal with
         | |- context [if ?b then _ else _] => destruct b eqn:?
         end;
    repeat match goal with
           | H : (_ || _)%bool = true |- _ => apply orb_true_iff in H
           | H : (_ || _)%bool = false |- _ => apply orb_false_iff in H as [? ?]
           | H : (_ && _)%bool = true |- _ => apply andb_true_iff in H as [? ?]
           | H : (_ && _)%bool = false |- _ => apply andb_false_iff in H
           | H : (_ <=? _)%N = true |- _ => apply N.leb_le in H
           | H : (_ <=? _)%N = false |- _ => apply N.leb_gt in H
           | H : (_ <? _)%N = true |- _ => apply N.ltb_lt in H
           | H : (_ <? _)%N = false |- _ => apply N.ltb_ge in H
           end;
    cbn [hasByte]; rewrite ?orb_false_r;
    rewrite ?ascii_of_N_eqb by arith;
    repeat match goal with
           | |- context [(N_of_ascii c =? ?v)%N] =>
               lazymatch v with
               | r => fail
               | _ => let E := fresh "E" in
                      assert (E : (N_of_ascii c =? v)%N = false) by (apply N.eqb_neq; arith);
                      rewrite E; clear E
               end
           end;
    cbn [orb]; try reflexivity;
    symmetry; apply N.eqb_neq; try tauto; lia.
Qed.

Section WithTables.

Context {tables : CaseTables}.

Lemma unicodeToLower_lowerASCII (r : N) :
  unicodeToLower (lowerASCII r) = unicodeToLower r.
Proof.
  unfold lowerASCII.
  destruct ((65 <=? r) && (r <=? 90))%N eqn:E; [|reflexivity].
  unfold unicodeToLower. rewrite E.
  apply andb_true_iff in E as [E1 E2]. apply N.leb_le in E1, E2.
  assert (H1 : (r + 32 <=? 127)%N = true) by (apply N.leb_le; lia).
  assert (H2 : (r <=? 127)%N = true) by (apply N.leb_le; lia).
  assert (H3 : (r + 32 <=? 90)%N = false) by (apply N.leb_gt; lia).
  now rewrite H1, H2, H3, andb_false_r.
Qed.

(** The lower-case form of a rune is an ASCII byte that is not a letter
    only for that byte itself. *)
Lemma unicodeToLower_sign (c : ascii) (r : N) :
  (N_of_ascii c < 128)%N -> ~ (65 <= N_of_ascii c <= 90)%N ->
  ~ (97 <= N_of_ascii c <= 122)%N ->
  (N_of_ascii c =? unicodeToLower r)%N = (N_of_ascii c =? r)%N.
Proof.
  intros Hc Hu Hl. unfold unicodeToLower.
  destruct (r <=? 127)%N eqn:E.
  - destruct ((65 <=? r) && (r <=? 90))%N eqn:E'; [|reflexivity].
    apply andb_true_iff in E' as [E1 E2]. apply N.leb_le in E1, E2.
    transitivity false; [|symmetry]; apply N.eqb_neq; lia.
  - apply N.leb_gt in E.
    assert (Ht := toLowerCase_letter r).
    transitivity false; [|symmetry]; apply N.eqb_neq; lia.
Qed.

Lemma writeRunes_hasByte (c : ascii) (rs : list N) :
  (N_of_ascii c < 128)%N ->
  hasByte c (writeRunes rs) = existsb (N.eqb (N_of_ascii c)) rs.
Proof.
  intros Hc. induction rs as [|r rs IH]; [reflexivity|].
  cbn [writeRunes existsb]. now rewrite hasByte_append, EncodeRune_hasByte, IH.
Qed.

Lemma isASCII_lowerBytes (s : string) : isASCII (lowerBytes s) = isASCII s.
Proof.
  induction s as [|a s IH]; [reflexivity|].
  cbn [lowerBytes isASCII]. now rewrite lowerByte_within, IH.
Qed.

Lemma lowerBytes_idem (s : string) : lowerBytes (lowerBytes s) = lowerBytes s.
Proof.
  induction s as [|a s IH]; [reflexivity|].
  cbn [lowerBytes]. now rewrite lowerByte_idem, IH.
Qed.

(** [strings.ToLower] does not see the case of the letters A to Z. *)
Lemma ToLower_lowerBytes (s : string) : ToLower (lowerBytes s) = ToLower s.
Proof.
  unfold ToLower. rewrite isASCII_lowerBytes. destruct (isASCII s).
  - apply lowerBytes_idem.
  - unfold Map. rewrite runes_lowerBytes, map_map. f_equal.
    apply map_ext. intros r. apply unicodeToLower_lowerASCII.
Qed.

(** Strings that are equal up to case, letter by letter, have the same
    lower-case form. *)
Lemma ToLower_EqFold (s t : string) : EqFold s t -> ToLower s = ToLower t.
Proof.
  intros E. apply lowerBytes_eq_iff in E.
  now rewrite <- (ToLower_lowerBytes s), E, ToLower_lowerBytes.
Qed.

Lemma lowerByte_slash (a : ascii) : Ascii.eqb (lowerByte a) slash = Ascii.eqb a slash.
Proof. destruct a as [[] [] [] [] [] [] [] []]; reflexivity. Qed.

(** Lowering the case neither adds nor removes a separator. *)
Lemma hasByte_slash_ToLower (s : string) : hasByte slash (ToLower s) = hasByte slash s.
Proof.
  unfold ToLower. destruct (isASCII s).
  - induction s as [|a s IH]; [reflexivity|].
    cbn [lowerBytes hasByte]. now rewrite lowerByte_slash, IH.
  - unfold Map.
    assert (Hs : (N_of_ascii slash < 128)%N) by (vm_compute; reflexivity).
    rewrite writeRunes_hasByte by exact Hs.
    rewrite <- (runes_hasByte slash s Hs).
    induction (runes s) as [|r rs IH]; [reflexivity|].
    cbn [map existsb]. rewrite IH. f_equal.
    apply unicodeToLower_sign; [exact Hs | vm_compute; intros [H1 H2]; now apply H1
                               | vm_compute; intros [H1 H2]; now apply H1].
Qed.

End WithTables.

End Runes.

(** ** The loop of the Resolver *)

Section Loop.

Import Resolver.

Context {tables : CaseTables}.

(** The test of line 284 holds exactly for equality up to case. *)
Lemma exactTest_iff (term path : string) :
  exactTest term path = true <-> EqualUpToCase (baseName path) term.
Proof. unfold exactTest, EqualUpToCase. now rewrite String.eqb_eq. Qed.

(** The test of line 292 holds exactly for containment up to case. *)
Lemma partialTest_iff (term path : string) :
  partialTest term path = true <-> ContainsUpToCase (baseName path) term.
Proof. unfold partialTest, ContainsUpToCase. now rewrite Contains_spec. Qed.

Lemma exactTest_partialTest (term path : string) :
  exactTest term path = true -> partialTest term path = true.
Proof.
  unfold exactTest, partialTest. rewrite String.eqb_eq.
  intros ->. apply Contains_refl.
Qed.



Lemma inTier_Exact (term path : string) :
  inTier Exact term path = exactTest term path.
Proof. unfold inTier, classify. destruct (exactTest term path), (partialTest term path); reflexivity. Qed.

Lemma inTier_Partial (term path : string) :
  inTier Partial term path = negb (exactTest term path) && partialTest term path.
Proof. unfold inTier, classify. destruct (exactTest term path), (partialTest term path); reflexivity. Qed.

Lemma inTier_classify (t : Tier) (term path : string) :
  inTier t term path = true <-> classify term path = t.
Proof.
  unfold inTier. destruct (classify term path), t; split; intros H;
    solve [reflexivity | discriminate H].
Qed.

(** An iteration acts on each tier's variables by [keep], and leaves the
    other tier's variables alone. *)
Lemma step_slot (t : Tier) (term : string) (b : Best) (path : string) :
  t <> NoMatch ->
  slot t (step (ToLower term) b path) = keep (inTier t term) (slot t b) path.
Proof.
  intros Ht. unfold keep.
  destruct t; try congruence;
    [rewrite inTier_Exact | rewrite inTier_Partial];
    unfold step, exactTest, partialTest, baseName; cbn [slot fst snd];
    destruct (String.eqb _ (ToLower term)); cbn [negb andb];
    repeat match goal with |- context [if ?c then _ else _] => destruct c end;
    reflexivity.
Qed.

(** [keep] maintains [Kept] when one more line is read. *)
Lemma Kept_keep (P : string -> bool) (done : list string) (v : string * Z) (x : string) :
  fits x -> Kept P done v -> Kept P (done ++ [x]) (keep P v x).
Proof.
  intros Hx [[Hnone ->] | [(pre & post & Hd & HP & Hpre & Hpost) Hlen]]; unfold keep.
  - destruct (P x) eqn:Px.
    + cbn [snd]. assert (Hlt : (len x <? maxInt) = true) by (apply Z.ltb_lt; exact Hx).
      rewrite Hlt. right. cbn [fst snd]. split; [|reflexivity].
      exists done, []. repeat split; try assumption.
      * intros c Hc Pc. rewrite (Hnone c Hc) in Pc. discriminate.
      * intros c [].
    + left. split; [|reflexivity].
      intros c Hc. apply in_app_or in Hc as [Hc | [<- | []]]; auto.
  - destruct v as [best bl]. cbn [fst snd] in *. subst bl.
    destruct (P x) eqn:Px; [destruct (len x <? len best) eqn:Hcmp|].
    + apply Z.ltb_lt in Hcmp. right. cbn [fst snd]. split; [|reflexivity].
      exists done, []. repeat split; try assumption.
      * intros c Hc Pc. subst done.
        apply in_app_or in Hc as [Hc | [<- | Hc]].
        -- specialize (Hpre c Hc Pc). lia.
        -- exact Hcmp.
        -- specialize (Hpost c Hc Pc). lia.
      * intros c [].
    + apply Z.ltb_ge in Hcmp. right. cbn [fst snd]. split; [|reflexivity].
      exists pre, (post ++ [x])%list. subst done. rewrite <- app_assoc. cbn [app].
      repeat split; try assumption.
      intros c Hc Pc. apply in_app_or in Hc as [Hc | [<- | []]]; auto.
    + right. cbn [fst snd]. split; [|reflexivity].
      exists pre, (post ++ [x])%list. subst done. rewrite <- app_assoc. cbn [app].
      repeat split; try assumption.
      intros c Hc Pc. apply in_app_or in Hc as [Hc | [<- | []]]; auto.
      rewrite Px in Pc. discriminate.
Qed.

Lemma Kept_init (P : string -> bool) (t : Tier) : Kept P [] (slot t initBest).
Proof. left. split; [intros c [] | now destruct t]. Qed.

(** The invariant of the loop, for either tier. *)
Lemma fold_Kept (t : Tier) (term : string) :
  t <> NoMatch ->
  forall (rest done : list string) (b : Best),
    Forall fits rest ->
    Kept (inTier t term) done (slot t b) ->
    Kept (inTier t term) (done ++ rest) (slot t (fold_left (step (ToLower term)) rest b)).
Proof.
  intros Ht. induction rest as [|x rest IH]; intros done b Hfit HK; cbn [fold_left].
  - now rewrite app_nil_r.
  - inversion Hfit as [|? ? Hx Hrest]; subst.
    replace (done ++ x :: rest)%list with ((done ++ [x]) ++ rest)%list
      by (rewrite <- app_assoc; reflexivity).
    apply IH; [assumption|].
    rewrite step_slot by assumption. now apply Kept_keep.
Qed.

Lemma scan_Kept (t : Tier) (term : string) (lines : list string) :
  t <> NoMatch -> Forall fits lines ->
  Kept (inTier t term) lines (slot t (scan term lines)).
Proof.
  intros Ht Hfit. unfold scan.
  apply (fold_Kept t term Ht lines [] initBest Hfit), Kept_init.
Qed.

Lemma Kept_some (P : string -> bool) (lines : list string) (v : string * Z) :
  Kept P lines v -> (exists p, In p lines /\ P p = true) -> FirstShortest P lines (fst v).
Proof.
  intros [[Hnone _] | [H _]] (p & Hin & HP); [|exact H].
  rewrite (Hnone p Hin) in HP. discriminate.
Qed.

(** A general invariant of the loop. *)
Lemma fold_step_inv (I : Best -> Prop) (termLower : string) (lines : list string) :
  (forall b x, In x lines -> I b -> I (step termLower b x)) ->
  forall b, I b -> I (fold_left (step termLower) lines b).
Proof.
  induction lines as [|x lines IH]; intros Hstep b Hb; cbn [fold_left].
  - exact Hb.
  - apply IH.
    + intros b' x' Hx'. apply Hstep. now right.
    + apply Hstep; [now left | exact Hb].
Qed.

(** In the words of the tests: what one iteration does. *)
Lemma step_classify (term : string) (b : Best) (path : string) :
  step (ToLower term) b path =
  match classify term path with
  | Exact =>
      if len path <? bestExactLen b
      then {| bestExact := path; bestExactLen := len path;
              bestPartial := bestPartial b; bestPartialLen := bestPartialLen b |}
      else b
  | Partial =>
      if len path <? bestPartialLen b
      then {| bestExact := bestExact b; bestExactLen := bestExactLen b;
              bestPartial := path; bestPartialLen := len path |}
      else b
  | NoMatch => b
  end.
Proof.
  unfold step, classify, exactTest, partialTest, baseName.
  destruct (String.eqb _ (ToLower term)); [reflexivity|].
  destruct (Contains _ (ToLower term)); reflexivity.
Qed.

(** Whatever the loop keeps is a line it has read, kept for the test that
    put it there. *)
Lemma scan_sound (term : string) (lines : list string) :
  let b := scan term lines in
  (bestExact b = EmptyString \/ (In (bestExact b) lines /\ classify term (bestExact b) = Exact)) /\
  (bestPartial b = EmptyString \/ (In (bestPartial b) lines /\ classify term (bestPartial b) = Partial)).
Proof.
  unfold scan. apply fold_step_inv.
  - intros b x Hx [HE HP]. rewrite step_classify.
    destruct (classify term x) eqn:Hc.
    + destruct (len x <? bestExactLen b); cbn [bestExact bestPartial]; auto.
    + destruct (len x <? bestPartialLen b); cbn [bestExact bestPartial]; auto.
    + auto.
  - cbn. auto.
Qed.

Lemma scan_none (term : string) (lines : list string) :
  (forall p, In p lines -> classify term p = NoMatch) ->
  scan term lines = initBest.
Proof.
  intros Hnone. unfold scan.
  apply (fold_step_inv (fun b => b = initBest)); [|reflexivity].
  intros b x Hx ->. now rewrite step_classify, (Hnone x Hx).
Qed.

Lemma classify_Exact_nonempty (term path : string) :
  term <> EmptyString -> classify term path = Exact -> path <> EmptyString.
Proof.
  intros Hterm Hc ->. apply inTier_classify in Hc. rewrite inTier_Exact in Hc.
  unfold exactTest in Hc. rewrite baseName_empty, ToLower_EmptyString in Hc.
  apply String.eqb_eq in Hc. symmetry in Hc. apply ToLower_empty in Hc. contradiction.
Qed.

Lemma classify_Partial_nonempty (term path : string) :
  term <> EmptyString -> classify term path = Partial -> path <> EmptyString.
Proof.
  intros Hterm Hc ->. apply inTier_classify in Hc. rewrite inTier_Partial in Hc.
  apply andb_true_iff in Hc as [_ Hc].
  unfold partialTest in Hc. rewrite baseName_empty, ToLower_EmptyString in Hc.
  apply Contains_spec in Hc as (pre & post & Hc).
  destruct pre; [|discriminate]. cbn in Hc.
  destruct (ToLower term) eqn:E; [|discriminate].
  apply ToLower_empty in E. contradiction.
Qed.

End Loop.

(** ** The scanner *)

Section Scanner.

Import Resolver.

Lemma dropCR_id (s : string) : endsIn CR s = false -> dropCR s = s.
Proof.
  induction s as [|c s IH]; [reflexivity|].
  destruct s as [|d s]; intros H.
  - cbn in H |- *. now rewrite H.
  - change (String c (dropCR (String d s)) = String c (String d s)).
    f_equal. apply IH. exact H.
Qed.

Lemma len_dropCR (s : string) : len (dropCR s) <= len s.
Proof.
  induction s as [|c s IH]; [cbn; lia|].
  destruct s as [|d s].
  - cbn [dropCR]. destruct (Ascii.eqb c CR); cbn; lia.
  - change (len (String c (dropCR (String d s))) <= len (String c (String d s))).
    rewrite !(len_String c). lia.
Qed.

Lemma len_sliceTo (n : nat) (s : string) : len (sliceTo n s) <= Z.of_nat n.
Proof.
  revert s. induction n as [|n IH]; intros s; [cbn; lia|].
  destruct s as [|c s]; [cbn; lia|].
  cbn [sliceTo]. rewrite len_String. specialize (IH s). lia.
Qed.

Lemma MaxScanTokenSize_fits (l : string) : len l <= MaxScanTokenSize -> fits l.
Proof. unfold fits, MaxScanTokenSize. change maxInt with (2 ^ 63 - 1). lia. Qed.

(** A line and its line feed: the lines of the file go on after it. *)
Lemma splitLines_line (h rest : string) :
  hasByte LF h = false ->
  splitLines (h ++ String LF rest) = h :: splitLines rest.
Proof.
  induction h as [|a h IH]; intros Hh.
  - reflexivity.
  - cbn [hasByte] in Hh. apply orb_false_iff in Hh as [Ha Hh].
    cbn [append splitLines]. now rewrite Ha, (IH Hh).
Qed.


(** The lines written one by one are the lines of the file, when none of
    them holds a line feed. *)
Lemma splitLines_unlines (ls : list string) :
  Forall (fun l => hasByte LF l = false) ls -> splitLines (unlines ls) = ls.
Proof.
  induction 1 as [|l ls Hlf _ IH]; [reflexivity|].
  cbn [unlines]. now rewrite splitLines_line, IH.
Qed.

(** Short lines are delivered one by one. *)
Lemma scanCalls_short (ls : list string) :
  Forall shortLine ls -> scanCalls ls = map (fun l => Some (dropCR l)) ls.
Proof.
  induction 1 as [|l ls Hl _ IH]; [reflexivity|].
  cbn [scanCalls map]. apply Z.ltb_lt in Hl. now rewrite Hl, IH.
Qed.

(** At a line that is not short the scanner gives up: one call returns
    false, the next one delivers the bytes in the buffer, and the lines that
    follow are not read. *)
Lemma scanCalls_long (l : string) (ls : list string) :
  ~ shortLine l ->
  scanCalls (l :: ls) = [None; Some (dropCR (sliceTo (Z.to_nat MaxScanTokenSize) l))].
Proof.
  intros Hl. cbn [scanCalls].
  assert (E : (len l <? MaxScanTokenSize) = false) by (apply Z.ltb_ge; unfold shortLine in Hl; lia).
  now rewrite E.
Qed.

Lemma loopTokens_Some (ts : list string) :
  loopTokens (map (fun l => Some (dropCR l)) ts) = map dropCR ts.
Proof. induction ts as [|t ts IH]; [reflexivity|]. cbn [map loopTokens]. now rewrite IH. Qed.

(** The tokens the loop gets from the lines [ls] are lines of [ls], in
    their order, from the first one on. *)
Lemma loopTokens_prefix (ls : list string) :
  exists k, loopTokens (scanCalls ls) = firstn k (map dropCR ls).
Proof.
  induction ls as [|l ls [k IH]]; [now exists 0%nat|].
  cbn [scanCalls]. destruct (len l <? MaxScanTokenSize).
  - exists (S k). cbn [loopTokens map firstn]. now rewrite IH.
  - now exists 0%nat.
Qed.

Lemma In_firstn (A : Type) (x : A) (k : nat) (l : list A) : In x (firstn k l) -> In x l.
Proof.
  revert l. induction k as [|k IH]; intros [|a l] Hx; cbn in Hx; try contradiction.
  destruct Hx as [->|Hx]; [now left | right; now apply IH].
Qed.

(** Every token the scanner delivers has a length an [int] holds. *)
Lemma scanCalls_fits (ls : list string) (t : string) :
  In (Some t) (scanCalls ls) -> fits t.
Proof.
  induction ls as [|l ls IH]; [intros []|].
  cbn [scanCalls]. destruct (len l <? MaxScanTokenSize) eqn:E.
  - intros [Ht | Ht]; [|now apply IH].
    injection Ht as <-. apply MaxScanTokenSize_fits. apply Z.ltb_lt in E.
    pose proof (len_dropCR l). lia.
  - pose proof (len_dropCR (sliceTo (Z.to_nat MaxScanTokenSize) l)) as H1.
    pose proof (len_sliceTo (Z.to_nat MaxScanTokenSize) l) as H2.
    rewrite Z2Nat.id in H2 by (unfold MaxScanTokenSize; lia).
    revert H1. generalize (dropCR (sliceTo (Z.to_nat MaxScanTokenSize) l)).
    intros chunk H1 [Ht | [Ht | []]]; [discriminate|].
    injection Ht as <-. apply MaxScanTokenSize_fits. lia.
Qed.

Lemma loopTokens_In (calls : list (option string)) (t : string) :
  In t (loopTokens calls) -> In (Some t) calls.
Proof.
  induction calls as [|[c|] calls IH]; cbn [loopTokens]; try contradiction.
  intros [-> | Ht]; [now left | right; now apply IH].
Qed.

Lemma In_tl (A : Type) (x : A) (l : list A) : In x (tl l) -> In x l.
Proof. destruct l; [intros [] | now right]. Qed.

(** What the loop reads has a length an [int] holds. *)
Lemma body_fits (content : string) : Forall fits (body content).
Proof.
  apply Forall_forall. intros t Ht. unfold body in Ht.
  apply loopTokens_In, In_tl in Ht. exact (scanCalls_fits _ _ Ht).
Qed.

(** From a file of short lines the loop reads the body lines, all of them. *)
Lemma body_ShortLines (content : string) :
  ShortLines content -> body content = bodyLines content.
Proof.
  unfold ShortLines, body, bodyLines, fileLines. intros Hs.
  rewrite (scanCalls_short _ Hs).
  destruct (splitLines content) as [|h ls]; [reflexivity|].
  cbn [map tl]. apply loopTokens_Some.
Qed.

(** From a file with a short header the loop reads body lines only. *)
Lemma body_ShortHeader (content : string) :
  ShortHeader content ->
  exists k, body content = firstn k (bodyLines content).
Proof.
  unfold ShortHeader, body, bodyLines, fileLines.
  destruct (splitLines content) as [|h ls]; [intros _; now exists 0%nat|].
  intros Hh. cbn [scanCalls map tl]. apply Z.ltb_lt in Hh. rewrite Hh.
  cbn [tl]. apply loopTokens_prefix.
Qed.

Lemma body_In_bodyLines (content p : string) :
  ShortHeader content -> In p (body content) -> In p (bodyLines content).
Proof.
  intros Hh Hp. destruct (body_ShortHeader content Hh) as [k E].
  rewrite E in Hp. exact (In_firstn _ _ _ _ Hp).
Qed.

Lemma ShortLines_ShortHeader (content : string) : ShortLines content -> ShortHeader content.
Proof.
  unfold ShortLines, ShortHeader. destruct (splitLines content); [trivial|].
  intros Hs. now inversion Hs.
Qed.

(** A file whose header is followed by a line feed: what the loop reads
    are the tokens of what follows. *)
Lemma body_header (h rest : string) :
  hasByte LF h = false -> shortLine h ->
  body (h ++ String LF rest) = loopTokens (scanCalls (splitLines rest)).
Proof.
  intros Hlf Hh. unfold body. rewrite (splitLines_line h rest Hlf).
  cbn [scanCalls]. apply Z.ltb_lt in Hh. now rewrite Hh.
Qed.


(** The lines of a written snapshot are read back as they are, when they
    are plain and short. *)
Lemma fileLines_unlines (ls : list string) :
  Forall plainLine ls -> fileLines (unlines ls) = ls.
Proof.
  intros Hp. unfold fileLines. rewrite splitLines_unlines.
  - induction Hp as [|l ls [_ Hcr] _ IH]; [reflexivity|].
    cbn [map]. now rewrite dropCR_id, IH.
  - eapply Forall_impl; [|exact Hp]. now intros l [Hl _].
Qed.

Lemma ShortLines_unlines (ls : list string) :
  Forall plainLine ls -> Forall shortLine ls -> ShortLines (unlines ls).
Proof.
  intros Hp Hs. unfold ShortLines. rewrite splitLines_unlines; [exact Hs|].
  eapply Forall_impl; [|exact Hp]. now intros l [Hl _].
Qed.

Lemma body_unlines (h : string) (ls : list string) :
  Forall plainLine (h :: ls) -> Forall shortLine (h :: ls) ->
  body (unlines (h :: ls)) = ls.
Proof.
  intros Hp Hs. rewrite body_ShortLines by now apply ShortLines_unlines.
  unfold bodyLines. now rewrite fileLines_unlines.
Qed.

(** The line of 64 KiB. *)
Lemma len_repeatByte (c : ascii) (n : nat) : len (repeatByte c n) = Z.of_nat n.
Proof.
  induction n as [|n IH]; [reflexivity|].
  cbn [repeatByte]. rewrite len_String, IH. lia.
Qed.

Lemma hasByte_repeatByte (c d : ascii) (n : nat) :
  Ascii.eqb d c = false -> hasByte c (repeatByte d n) = false.
Proof. intros E. induction n as [|n IH]; [reflexivity|]. cbn [repeatByte hasByte]. now rewrite E. Qed.


Lemma endsIn_repeatByte (c d : ascii) (n : nat) :
  Ascii.eqb d c = false -> endsIn c (repeatByte d n) = false.
Proof.
  intros E. induction n as [|n IH]; [reflexivity|].
  cbn [repeatByte endsIn]. destruct (repeatByte d n); [exact E | exact IH].
Qed.



Lemma len_longLine : len longLine = MaxScanTokenSize.
Proof. unfold longLine. rewrite len_repeatByte. unfold MaxScanTokenSize. lia. Qed.



Lemma longLine_no_LF : hasByte LF longLine = false.
Proof. apply hasByte_repeatByte. reflexivity. Qed.




End Scanner.

(** ** The candidates *)

Section Candidates.

Import Resolver.

Context {tables : CaseTables}.

Lemma classify_Exact_iff (term line : string) :
  classify term line = Exact <-> ExactCandidate term line.
Proof.
  unfold ExactCandidate. rewrite <- exactTest_iff, <- inTier_classify.
  now rewrite inTier_Exact.
Qed.

Lemma classify_Partial_iff (term line : string) :
  classify term line = Partial <-> PartialCandidate term line.
Proof.
  unfold PartialCandidate.
  rewrite <- exactTest_iff, <- partialTest_iff, <- inTier_classify, inTier_Partial.
  rewrite andb_true_iff, negb_true_iff, not_true_iff_false. tauto.
Qed.

Lemma classify_NoMatch_iff (term line : string) :
  classify term line = NoMatch <->
  ~ ExactCandidate term line /\ ~ PartialCandidate term line.
Proof.
  rewrite <- classify_Exact_iff, <- classify_Partial_iff.
  destruct (classify term line); split; try intros [H1 H2]; try congruence;
    intros _; split; discriminate.
Qed.

Lemma FirstShortest_BestOf (P : string -> bool) (C : string -> Prop)
      (lines : list string) (r : string) :
  (forall c, P c = true <-> C c) ->
  FirstShortest P lines r -> BestOf C lines r.
Proof.
  intros HPC (pre & post & E & HP & Hpre & Hpost).
  exists pre, post. repeat split; try assumption.
  - now apply HPC.
  - intros c Hc Cc. apply Hpre; [assumption | now apply HPC].
  - intros c Hc Cc. apply Hpost; [assumption | now apply HPC].
Qed.

Lemma inTier_Exact_iff (term c : string) :
  inTier Exact term c = true <-> ExactCandidate term c.
Proof. now rewrite inTier_classify, classify_Exact_iff. Qed.

Lemma inTier_Partial_iff (term c : string) :
  inTier Partial term c = true <-> PartialCandidate term c.
Proof. now rewrite inTier_classify, classify_Partial_iff. Qed.

(** The exact tier after the loop. *)
Lemma scan_exact (term : string) (lines : list string) :
  Forall fits lines ->
  (exists p, In p lines /\ ExactCandidate term p) ->
  BestOf (ExactCandidate term) lines (bestExact (scan term lines)).
Proof.
  intros Hfit (p & Hin & Hp).
  apply (FirstShortest_BestOf (inTier Exact term)); [apply inTier_Exact_iff|].
  apply (Kept_some _ _ (slot Exact (scan term lines))).
  - apply scan_Kept; [discriminate | assumption].
  - exists p. split; [assumption | now apply inTier_Exact_iff].
Qed.

(** The partial tier after the loop. *)
Lemma scan_partial (term : string) (lines : list string) :
  Forall fits lines ->
  (exists p, In p lines /\ PartialCandidate term p) ->
  BestOf (PartialCandidate term) lines (bestPartial (scan term lines)).
Proof.
  intros Hfit (p & Hin & Hp).
  apply (FirstShortest_BestOf (inTier Partial term)); [apply inTier_Partial_iff|].
  apply (Kept_some _ _ (slot Partial (scan term lines))).
  - apply scan_Kept; [discriminate | assumption].
  - exists p. split; [assumption | now apply inTier_Partial_iff].
Qed.

Lemma scan_no_exact (term : string) (lines : list string) :
  (forall p, In p lines -> ~ ExactCandidate term p) ->
  bestExact (scan term lines) = EmptyString.
Proof.
  intros Hnone. destruct (scan_sound term lines) as [[H | [Hin Hc]] _]; [exact H|].
  apply classify_Exact_iff in Hc. now apply Hnone in Hc.
Qed.

Lemma BestOf_In (C : string -> Prop) (lines : list string) (r : string) :
  BestOf C lines r -> In r lines /\ C r.
Proof. intros (pre & post & -> & HC & _). split; [apply in_elt | exact HC]. Qed.

Lemma choose_exact (term : string) (b : Best) :
  bestExact b <> EmptyString -> choose term b = inl (bestExact b).
Proof.
  intros H. unfold choose. apply String.eqb_neq in H. now rewrite H.
Qed.

Lemma choose_partial (term : string) (b : Best) :
  bestExact b = EmptyString -> bestPartial b <> EmptyString ->
  choose term b = inl (bestPartial b).
Proof.
  intros HE HP. unfold choose. rewrite HE. apply String.eqb_neq in HP.
  cbn. now rewrite HP.
Qed.

(** What [choose] returns after the loop is a line the loop has read, and it
    passes the test of line 292. *)
Lemma choose_scan_sound (term : string) (lines : list string) (r : string) :
  choose term (scan term lines) = inl r ->
  In r lines /\ partialTest term r = true.
Proof.
  unfold choose. destruct (scan_sound term lines) as [HE HP].
  destruct (String.eqb_spec (bestExact (scan term lines)) EmptyString) as [E1|N1];
    cbn [negb].
  - destruct (String.eqb_spec (bestPartial (scan term lines)) EmptyString) as [E2|N2];
      cbn [negb]; [discriminate|].
    intros H; inversion H; subst r. destruct HP as [HP | [Hin Hc]]; [contradiction|].
    split; [assumption|].
    apply classify_Partial_iff in Hc as [Hc _]. now apply partialTest_iff.
  - intros H; inversion H; subst r. destruct HE as [HE | [Hin Hc]]; [contradiction|].
    split; [assumption|].
    now apply classify_Exact_iff, exactTest_iff, exactTest_partialTest in Hc.
Qed.

End Candidates.

(** ** The Resolver: the properties of the specification *)

Section ResolverProperties.

Import Resolver.

Context {tables : CaseTables}.

(** The Resolver runs its loop over what the scanner delivers after the
    first call. *)
Lemma search_body (content term : string) :
  searchDatabaseOptimized (inl content) term = choose term (scan term (body content)).
Proof. reflexivity. Qed.

(** The Resolver on one line. *)
Lemma search_single (p term : string) :
  p <> EmptyString -> fits p ->
  (ContainsUpToCase (baseName p) term -> choose term (scan term [p]) = inl p) /\
  (~ ContainsUpToCase (baseName p) term -> choose term (scan term [p]) = inr (notFound term)).
Proof.
  intros Hne Hfit. unfold scan. cbn [fold_left]. rewrite step_classify.
  assert (Hlt : (len p <? maxInt) = true) by (apply Z.ltb_lt; exact Hfit).
  cbn [initBest bestExactLen bestPartialLen bestExact bestPartial]. rewrite Hlt.
  split; intros HC.
  - destruct (classify term p) eqn:Hc.
    + now apply choose_exact.
    + now apply choose_partial.
    + apply classify_NoMatch_iff in Hc as [H1 H2]. exfalso.
      unfold ExactCandidate, PartialCandidate in *. tauto.
  - destruct (classify term p) eqn:Hc.
    + apply classify_Exact_iff, exactTest_iff, exactTest_partialTest, partialTest_iff in Hc.
      contradiction.
    + apply classify_Partial_iff in Hc as [Hc _]. contradiction.
    + reflexivity.
Qed.


(** A snapshot with a line that does not fit the buffer of the scanner,
    after a header and lines that do: the loop reads the lines in front of
    it and stops. *)
Lemma body_blocked (h : string) (pre : list string) (l : string) (post : list string) :
  Forall plainLine (h :: pre) -> Forall shortLine (h :: pre) ->
  hasByte LF l = false -> ~ shortLine l ->
  Forall (fun p => hasByte LF p = false) post ->
  body (unlines (h :: pre ++ l :: post)) = pre.
Proof.
  intros Hp Hs Hl Hlong Hpost. unfold body.
  rewrite splitLines_unlines.
  - inversion Hp as [|? ? Hph Hppre]; inversion Hs as [|? ? Hsh Hspre]; subst.
    cbn [scanCalls]. apply Z.ltb_lt in Hsh. rewrite Hsh. cbn [tl].
    clear Hph Hsh Hp Hs.
    induction pre as [|p pre IH]; cbn [app].
    + now rewrite (scanCalls_long l post Hlong).
    + inversion Hppre as [|? ? [_ Hcr] Hppre']; inversion Hspre as [|? ? Hsp Hspre']; subst.
      cbn [scanCalls]. apply Z.ltb_lt in Hsp. rewrite Hsp. cbn [loopTokens].
      now rewrite (dropCR_id p Hcr), IH.
  - constructor; [now inversion Hp as [|? ? [? _] _]|].
    apply Forall_app. split.
    + inversion Hp as [|? ? _ Hppre]. eapply Forall_impl; [|exact Hppre]. now intros p [? _].
    + now constructor.
Qed.


(** C2, amended. For every snapshot whose lines are shorter than 64 KiB and
    every non-empty term: when some body line is an exact candidate (its
    base name equals the term up to case), the Resolver returns the best
    exact candidate, the shortest one and among equally short ones the
    first, whatever partial candidates the snapshot holds and however short
    they are. *)
Theorem resolve_exact_dominates (content term : string) :
  ShortLines content ->
  term <> EmptyString ->
  (exists p, In p (bodyLines content) /\ ExactCandidate term p) ->
  exists r,
    searchDatabaseOptimized (inl content) term = inl r /\
    BestOf (ExactCandidate term) (bodyLines content) r.
Proof.
  intros Hshort Hterm Hex. rewrite search_body.
  pose proof (body_fits content) as Hfit.
  rewrite (body_ShortLines content Hshort) in *.
  pose proof (scan_exact term (bodyLines content) Hfit Hex) as Hbest.
  exists (bestExact (scan term (bodyLines content))). split; [|exact Hbest].
  apply choose_exact.
  destruct (BestOf_In _ _ _ Hbest) as [_ Hc].
  apply classify_Exact_iff in Hc.
  exact (classify_Exact_nonempty _ _ Hterm Hc).
Qed.

(** C3, amended. For every snapshot whose lines are shorter than 64 KiB:
    in each tier on its own, the loop keeps the candidate with the shortest
    path, and among candidates of equal length the one that comes first in
    the snapshot; the Resolver returns the one kept in the exact tier if
    there is one, and the one kept in the partial tier otherwise. *)
Theorem resolve_shortest_first_per_tier (content term : string) :
  ShortLines content ->
  let b := scan term (bodyLines content) in
  ((exists p, In p (bodyLines content) /\ ExactCandidate term p) ->
   BestOf (ExactCandidate term) (bodyLines content) (bestExact b)) /\
  ((exists p, In p (bodyLines content) /\ PartialCandidate term p) ->
   BestOf (PartialCandidate term) (bodyLines content) (bestPartial b)) /\
  (term <> EmptyString ->
   ((exists p, In p (bodyLines content) /\ ExactCandidate term p) ->
    searchDatabaseOptimized (inl content) term = inl (bestExact b)) /\
   ((forall p, In p (bodyLines content) -> ~ ExactCandidate term p) ->
    (exists p, In p (bodyLines content) /\ PartialCandidate term p) ->
    searchDatabaseOptimized (inl content) term = inl (bestPartial b))).
Proof.
  intros Hshort b. subst b. rewrite search_body.
  pose proof (body_fits content) as Hfit.
  rewrite (body_ShortLines content Hshort) in *.
  split; [|split].
  - now apply scan_exact.
  - now apply scan_partial.
  - intros Hterm. split.
    + intros Hex. apply choose_exact.
      destruct (BestOf_In _ _ _ (scan_exact term _ Hfit Hex)) as [_ Hc].
      apply classify_Exact_iff in Hc.
      exact (classify_Exact_nonempty _ _ Hterm Hc).
    + intros Hnone Hex. apply choose_partial.
      * now apply scan_no_exact.
      * destruct (BestOf_In _ _ _ (scan_partial term _ Hfit Hex)) as [_ Hc].
        apply classify_Partial_iff in Hc.
        exact (classify_Partial_nonempty _ _ Hterm Hc).
Qed.





(** C10, amended. For the empty term and a snapshot whose lines are shorter
    than 64 KiB and whose body is not empty and holds no line that is empty
    or ends in a separator, the Resolver does not fail: every line is a
    partial candidate, and the shortest line of the body, the first one
    among equally short ones, is returned. *)
Theorem resolve_empty_term (content : string) :
  ShortLines content ->
  bodyLines content <> [] ->
  Forall (fun p => p <> EmptyString /\ endsIn slash p = false) (bodyLines content) ->
  exists r,
    searchDatabaseOptimized (inl content) EmptyString = inl r /\
    BestOf (fun _ => True) (bodyLines content) r /\
    classify EmptyString r = Partial.
Proof.
  intros Hshort Hne Hlines. rewrite search_body.
  pose proof (body_fits content) as Hfit.
  rewrite (body_ShortLines content Hshort) in *.
  assert (Hall : forall p, In p (bodyLines content) -> classify EmptyString p = Partial).
  { intros p Hp. rewrite Forall_forall in Hlines. destruct (Hlines p Hp) as [Hp1 Hp2].
    pose proof (baseName_nonempty p Hp1 Hp2) as Hb.
    unfold classify, exactTest, partialTest. rewrite ToLower_EmptyString.
    destruct (String.eqb_spec (ToLower (baseName p)) EmptyString) as [E|_].
    - apply ToLower_empty in E. contradiction.
    - now rewrite Contains_empty. }
  assert (Hex : exists p, In p (bodyLines content) /\ PartialCandidate EmptyString p).
  { destruct (bodyLines content) as [|p ls]; [contradiction|].
    exists p. split; [now left|]. apply classify_Partial_iff, Hall. now left. }
  pose proof (scan_partial EmptyString (bodyLines content) Hfit Hex) as Hbest.
  exists (bestPartial (scan EmptyString (bodyLines content))).
  destruct (BestOf_In _ _ _ Hbest) as [Hin Hc].
  split; [|split].
  - apply choose_partial.
    + apply scan_no_exact. intros p Hp Hc'.
      apply classify_Exact_iff in Hc'. rewrite (Hall p Hp) in Hc'. discriminate.
    + rewrite Forall_forall in Hlines. now apply Hlines.
  - destruct Hbest as (pre & post & E & _ & Hpre & Hpost).
    exists pre, post. rewrite E in Hall.
    repeat split; try assumption.
    + intros c Hc1 _. apply Hpre; [assumption|].
      apply classify_Partial_iff, Hall. apply in_or_app; now left.
    + intros c Hc1 _. apply Hpost; [assumption|].
      apply classify_Partial_iff, Hall. apply in_or_app; right; now right.
  - now apply classify_Partial_iff.
Qed.

End ResolverProperties.

(** ** The Resolver on concrete snapshots *)

Section ResolverOnSnapshots.

Import Resolver.

Lemma longLine_long : ~ shortLine longLine.
Proof. unfold shortLine. rewrite len_longLine. lia. Qed.

Lemma longLine_plain : plainLine longLine.
Proof. split; [apply longLine_no_LF | apply endsIn_repeatByte; reflexivity]. Qed.







(** C2, the claim as it is written, fails on a snapshot with a line of
    64 KiB or more: the scanner gives up at that line, the loop ends, and
    an exact candidate that follows is not found. *)
Lemma long_line_hides_exact_candidate :
  In "/a/foo" (bodyLines (unlines ["/r"; longLine; "/a/foo"; "/a/foobar"])) /\
  ExactCandidate "foo" "/a/foo" /\
  searchDatabaseOptimized (inl (unlines ["/r"; longLine; "/a/foo"; "/a/foobar"])) "foo"
    = inr (notFound "foo").
Proof.
  split; [|split].
  - unfold bodyLines. rewrite fileLines_unlines.
    + cbn [tl]. right. now left.
    + repeat constructor; apply longLine_plain.
  - apply classify_Exact_iff. reflexivity.
  - rewrite search_body.
    pose proof (body_blocked "/r" [] longLine ["/a/foo"; "/a/foobar"]) as E.
    cbn [app] in E. rewrite E; [reflexivity | | | | |].
    + repeat constructor.
    + repeat constructor.
    + apply longLine_no_LF.
    + apply longLine_long.
    + repeat constructor.
Qed.

Lemma resolve_exact_dominates_witness :
  exists r,
    searchDatabaseOptimized (inl (unlines ["/r"; "/a/foo"; "/a/foobar"])) "foo" = inl r /\
    BestOf (ExactCandidate "foo") (bodyLines (unlines ["/r"; "/a/foo"; "/a/foobar"])) r.
Proof.
  apply resolve_exact_dominates.
  - repeat constructor.
  - discriminate.
  - exists "/a/foo". split.
    + vm_compute. now left.
    + apply exactTest_iff. reflexivity.
Defined.

(** C3, the claim as it is written, fails on a snapshot with a line of
    64 KiB or more: a shorter candidate of the same tier that stands after
    that line is not read, and the longer one is returned. *)
Lemma long_line_hides_shorter_candidate :
  In "/proj" (bodyLines (unlines ["/r"; "/a/x/proj"; longLine; "/proj"])) /\
  ExactCandidate "proj" "/proj" /\
  len "/proj" < len "/a/x/proj" /\
  searchDatabaseOptimized (inl (unlines ["/r"; "/a/x/proj"; longLine; "/proj"])) "proj"
    = inl "/a/x/proj".
Proof.
  split; [|split; [|split]].
  - unfold bodyLines. rewrite fileLines_unlines.
    + cbn [tl]. do 2 right. now left.
    + repeat constructor; apply longLine_plain.
  - apply classify_Exact_iff. reflexivity.
  - reflexivity.
  - rewrite search_body.
    pose proof (body_blocked "/r" ["/a/x/proj"] longLine ["/proj"]) as E.
    cbn [app] in E. rewrite E; [reflexivity | | | | |].
    + repeat constructor.
    + repeat constructor.
    + apply longLine_no_LF.
    + apply longLine_long.
    + repeat constructor.
Qed.

Lemma resolve_shortest_first_per_tier_witness :
  BestOf (ExactCandidate "proj")
         (bodyLines (unlines ["/r"; "/a/x/proj"; "/proj"; "/b/myproj"; "/myproj"; "/proj"]))
         (bestExact (scan "proj" (bodyLines (unlines ["/r"; "/a/x/proj"; "/proj"; "/b/myproj"; "/myproj"; "/proj"])))) /\
  BestOf (PartialCandidate "proj")
         (bodyLines (unlines ["/r"; "/a/x/proj"; "/proj"; "/b/myproj"; "/myproj"; "/proj"]))
         (bestPartial (scan "proj" (bodyLines (unlines ["/r"; "/a/x/proj"; "/proj"; "/b/myproj"; "/myproj"; "/proj"])))).
Proof.
  assert (Hs : ShortLines (unlines ["/r"; "/a/x/proj"; "/proj"; "/b/myproj"; "/myproj"; "/proj"]))
    by (repeat constructor).
  destruct (resolve_shortest_first_per_tier _ "proj" Hs) as (HE & HP & _).
  split.
  - apply HE. exists "/proj". split.
    + vm_compute. right. now left.
    + apply classify_Exact_iff. reflexivity.
  - apply HP. exists "/myproj". split.
    + vm_compute. do 3 right. now left.
    + apply classify_Partial_iff. reflexivity.
Defined.








(** C10, the claim as it is written, fails on a snapshot with an empty body
    line: such a line does not end in a separator, its base name is empty and
    so equal to the empty term, and it is kept in the exact tier, where the
    final test for a non-empty string passes it over. An empty line alone
    makes the Resolver fail, and next to other lines it is not returned
    although it is the shortest. The claim fails as well on a snapshot with
    a line of 64 KiB, which the scanner does not deliver. *)
Lemma empty_term_empty_line :
  bodyLines (unlines ["/r"; EmptyString]) = [EmptyString] /\
  Forall (fun p => endsIn slash p = false) (bodyLines (unlines ["/r"; EmptyString])) /\
  searchDatabaseOptimized (inl (unlines ["/r"; EmptyString])) EmptyString
    = inr (notFound EmptyString) /\
  bodyLines (unlines ["/r"; "/a/b"; EmptyString; "/c"]) = ["/a/b"; EmptyString; "/c"] /\
  searchDatabaseOptimized (inl (unlines ["/r"; "/a/b"; EmptyString; "/c"])) EmptyString
    = inl "/c" /\
  bodyLines (unlines ["/r"; longLine]) = [longLine] /\
  endsIn slash longLine = false /\
  searchDatabaseOptimized (inl (unlines ["/r"; longLine])) EmptyString
    = inr (notFound EmptyString).
Proof.
  split; [reflexivity|]. split; [repeat constructor|].
  split; [reflexivity|]. split; [reflexivity|]. split; [reflexivity|].
  split; [|split].
  - unfold bodyLines. rewrite fileLines_unlines; [reflexivity|].
    repeat constructor; apply longLine_plain.
  - apply endsIn_repeatByte. reflexivity.
  - rewrite search_body.
    pose proof (body_blocked "/r" [] longLine []) as E.
    cbn [app] in E. rewrite E; [reflexivity | | | | |].
    + repeat constructor.
    + repeat constructor.
    + apply longLine_no_LF.
    + apply longLine_long.
    + constructor.
Qed.

Lemma resolve_empty_term_witness :
  exists r,
    searchDatabaseOptimized (inl (unlines ["/r"; "/a/bb"; "/c/d"; "/e/f"])) EmptyString = inl r /\
    BestOf (fun _ => True) (bodyLines (unlines ["/r"; "/a/bb"; "/c/d"; "/e/f"])) r /\
    classify EmptyString r = Partial.
Proof.
  apply resolve_empty_term.
  - repeat constructor.
  - discriminate.
  - repeat constructor; discriminate.
Defined.

End ResolverOnSnapshots.

(** ** The walk of the Indexer *)

Section Walk.

Import Indexer.

(** Induction on a tree of directory entries: the entries of a directory
    come with the induction hypothesis. *)
Lemma DirEntry_tree_ind (P : DirEntry -> Prop) :
  (forall name, P (Other name)) ->
  (forall name es readErr, Forall P es -> P (Dir name es readErr)) ->
  forall d, P d.
Proof.
  intros HO HD.
  fix IH 1. intros [name | name es readErr].
  - apply HO.
  - apply HD. induction es as [|d es IHes]; constructor; [apply IH | exact IHes].
Qed.

Lemma unlines_app (l1 l2 : list string) :
  unlines (l1 ++ l2) = unlines l1 ++ unlines l2.
Proof.
  induction l1 as [|l l1 IH]; cbn [unlines app]; [reflexivity|].
  rewrite IH, append_assoc. reflexivity.
Qed.

Lemma append_line (o p : string) (ls : list string) :
  (o ++ (p ++ String LF EmptyString)) ++ unlines ls = o ++ unlines (p :: ls).
Proof. cbn [unlines]. now rewrite !append_assoc. Qed.

(** The equations of [walkDir] and of its loop. *)
Lemma walkDir_Other (fn : WalkDirFunc) (path name : string) (w : Writer) :
  walkDir fn path (Other name) w =
  let (w1, err) := fn path (Some (Other name)) None w in
  match err with
  | Some e => (w1, Some e)
  | None => (w1, None)
  end.
Proof.
  cbn [walkDir IsDir]. destruct (fn path (Some (Other name)) None w) as [w1 [e|]];
    [now rewrite andb_false_r | reflexivity].
Qed.

Lemma walkDir_Dir (fn : WalkDirFunc) (path name : string) (dirs : list DirEntry)
      (readErr : option error) (w : Writer) :
  walkDir fn path (Dir name dirs readErr) w =
  let d := Dir name dirs readErr in
  let (w1, err) := fn path (Some d) None w in
  match err with
  | Some e => if isSkipDir e then (w1, None) else (w1, Some e)
  | None =>
      match readErr with
      | None => walkEntries fn path dirs w1
      | Some re =>
          let (w2, err2) := fn path (Some d) (Some re) w1 in
          match err2 with
          | Some e => if isSkipDir e then (w2, None) else (w2, Some e)
          | None => walkEntries fn path dirs w2
          end
      end
  end.
Proof.
  cbn [walkDir IsDir].
  destruct (fn path (Some (Dir name dirs readErr)) None w) as [w1 [e|]].
  - now rewrite andb_true_r.
  - destruct readErr as [re|]; [|reflexivity].
    destruct (fn path _ (Some re) w1) as [w2 [e|]];
      [now destruct (isSkipDir e) | reflexivity].
Qed.

Lemma walkEntries_cons (fn : WalkDirFunc) (path : string) (d1 : DirEntry)
      (ds : list DirEntry) (w : Writer) :
  walkEntries fn path (d1 :: ds) w =
  let (w', err1) := walkDir fn (Join path (Name (Some d1))) d1 w in
  match err1 with
  | Some e => if isSkipDir e then (w', None) else (w', Some e)
  | None => walkEntries fn path ds w'
  end.
Proof. reflexivity. Qed.

Section NoFault.

Variable dk : Disk.
Hypothesis no_fault : forall n, fault dk n = None.

Lemma WriteString_ok (w : Writer) (s : string) :
  WriteString dk w s = ({| out := out w ++ s; ops := S (ops w) |}, None).
Proof. unfold WriteString. now rewrite no_fault. Qed.

(** On a file that takes every write, the walk of an entry appends the lines
    of [walkPaths] and returns nil. *)
Lemma walkDir_no_fault (d : DirEntry) :
  forall path w, exists k,
    walkDir (walkFn dk) path d w
      = ({| out := out w ++ unlines (walkPaths path d); ops := k |}, None).
Proof.
  induction d as [name | name es readErr IHes] using DirEntry_tree_ind; intros path w.
  - exists (ops w). rewrite walkDir_Other. cbn [walkFn IsDir andb walkPaths unlines].
    rewrite append_nil_r. now destruct w.
  - rewrite walkDir_Dir. cbn [walkFn IsDir Name walkPaths andb].
    destruct (String.eqb name ".git") eqn:Hgit.
    + exists (ops w). cbn [isSkipDir unlines]. rewrite append_nil_r. now destruct w.
    + rewrite WriteString_ok. destruct readErr as [re|].
      * exists (S (ops w)). cbn [isSkipDir out].
        now rewrite <- (append_line _ _ []), append_nil_r.
      * set (w1 := {| out := out w ++ (path ++ String LF EmptyString); ops := S (ops w) |}).
        assert (Hloop : forall ds w0, Forall (fun d => forall path w, exists k,
                            walkDir (walkFn dk) path d w
                            = ({| out := out w ++ unlines (walkPaths path d); ops := k |}, None)) ds ->
                  exists k, walkEntries (walkFn dk) path ds w0
                    = ({| out := out w0 ++ unlines (flat_map (fun d1 => walkPaths (Join path (Name (Some d1))) d1) ds);
                          ops := k |}, None)).
        { induction ds as [|d1 ds IHds]; intros w0 HF.
          - exists (ops w0). cbn [walkEntries flat_map unlines].
            rewrite append_nil_r. now destruct w0.
          - inversion HF as [|? ? Hd1 Hds]; subst.
            rewrite walkEntries_cons. cbn [flat_map].
            destruct (Hd1 (Join path (Name (Some d1))) w0) as [k1 ->].
            destruct (IHds {| out := out w0 ++ unlines (walkPaths (Join path (Name (Some d1))) d1); ops := k1 |} Hds)
              as [k2 Hk2].
            exists k2. rewrite Hk2.
            cbn [out]. now rewrite unlines_app, append_assoc. }
        destruct (Hloop es w1 IHes) as [k Hk]. exists k. rewrite Hk.
        subst w1. cbn [out]. now rewrite append_line.
Qed.

(** The same for the whole walk, from what [os.Lstat] finds for the root. *)
Lemma WalkDir_no_fault (root : string) (st : Stat) (w : Writer) :
  exists k,
    WalkDir root st (walkFn dk) w
      = ({| out := out w ++ unlines (indexed root st); ops := k |}, None).
Proof.
  unfold WalkDir, indexed, rootEntry. destruct st as [e | | es re].
  - exists (ops w). cbn [walkFn isSkipDir orb unlines].
    rewrite append_nil_r. now destruct w.
  - destruct (walkDir_no_fault (Other (basename root)) root w) as [k ->]. now exists k.
  - destruct (walkDir_no_fault (Dir (basename root) es re) root w) as [k ->]. now exists k.
Qed.

Lemma generateDatabase_no_fault (st : Stat) (root : string) :
  createErr dk = None ->
  generateDatabase dk st root = inl (unlines (root :: indexed root st)).
Proof.
  intros Hc. unfold generateDatabase. rewrite Hc, WriteString_ok.
  match goal with
  | |- context [WalkDir root st (walkFn dk) ?w] =>
      destruct (WalkDir_no_fault root st w) as [k ->]
  end.
  unfold Flush. rewrite no_fault. cbn [out]. now rewrite append_line.
Qed.

End NoFault.

Lemma generateDatabase_healthy (st : Stat) (root : string) :
  generateDatabase healthy st root = inl (unlines (root :: indexed root st)).
Proof. apply generateDatabase_no_fault; reflexivity. Qed.

Section AnyDisk.

Variable dk : Disk.

(** An error that comes out of the walk is an error of the snapshot file:
    the function of [generateDatabase] answers every error of the file
    system with [SkipDir], which [walkDir] takes as done. *)
Lemma walkDir_error (d : DirEntry) :
  forall path w w' e,
    walkDir (walkFn dk) path d w = (w', Some e) -> exists n, fault dk n = Some e.
Proof.
  induction d as [name | name es readErr IHes] using DirEntry_tree_ind;
    intros path w w' e.
  - rewrite walkDir_Other. cbn [walkFn IsDir andb]. discriminate.
  - rewrite walkDir_Dir. cbn [walkFn IsDir Name andb].
    destruct (String.eqb name ".git"); [cbn [isSkipDir]; discriminate|].
    unfold WriteString. destruct (fault dk (ops w)) as [e0|] eqn:Hf.
    + destruct (isSkipDir e0); [discriminate|].
      intros H; inversion H; subst. now exists (ops w).
    + destruct readErr as [re|]; [cbn [isSkipDir]; discriminate|].
      generalize {| out := out w ++ (path ++ String LF EmptyString); ops := S (ops w) |}.
      induction es as [|d1 es IHds]; intros w0; [discriminate|].
      inversion IHes as [|? ? Hd1 Hes]; subst.
      rewrite walkEntries_cons.
      destruct (walkDir (walkFn dk) (Join path (Name (Some d1))) d1 w0) as [w1 [e1|]] eqn:Hw.
      * destruct (isSkipDir e1); [discriminate|].
        intros H; inversion H; subst. eapply Hd1; eassumption.
      * now apply IHds.
Qed.

Lemma WalkDir_error (root : string) (st : Stat) (w w' : Writer) (e : error) :
  WalkDir root st (walkFn dk) w = (w', Some e) -> exists n, fault dk n = Some e.
Proof.
  unfold WalkDir. destruct st as [e0 | | es re].
  - cbn [walkFn isSkipDir orb]. discriminate.
  - destruct (walkDir _ _ _ _) as [w1 [e1|]] eqn:Hw; [|discriminate].
    destruct (isSkipDir e1 || isSkipAll e1); [discriminate|].
    intros H; inversion H; subst. eapply walkDir_error; eassumption.
  - destruct (walkDir _ _ _ _) as [w1 [e1|]] eqn:Hw; [|discriminate].
    destruct (isSkipDir e1 || isSkipAll e1); [discriminate|].
    intros H; inversion H; subst. eapply walkDir_error; eassumption.
Qed.

(** Whatever [os.Lstat] and [os.ReadDir] report, an error returned by
    [generateDatabase] is the error of [os.Create] or of an operation on the
    writer. *)
Lemma generateDatabase_error (st : Stat) (root : string) (e : error) :
  generateDatabase dk st root = inr e ->
  createErr dk = Some e \/ exists n, fault dk n = Some e.
Proof.
  unfold generateDatabase. destruct (createErr dk) as [e0|].
  - intros H; inversion H; now left.
  - unfold WriteString at 1. cbn [ops]. destruct (fault dk 0%nat) as [e1|] eqn:H0.
    + intros H; inversion H; subst. right. now exists 0%nat.
    + destruct (WalkDir _ _ _ _) as [w2 [e2|]] eqn:Hw.
      * intros H; inversion H; subst. right. eapply WalkDir_error; eassumption.
      * unfold Flush. destruct (fault dk (ops w2)) as [e3|] eqn:H3; [|discriminate].
        intros H; inversion H; subst. right. now exists (ops w2).
Qed.

End AnyDisk.

(** What [walkPaths] lists: the directories found from the entry by going
    down through directories that are read without error, none of them
    named .git. *)
Lemma walkPaths_iff (d : DirEntry) :
  forall path p,
    In p (walkPaths path d) <->
    exists chain d',
      Descends d chain d' /\ IsDir (Some d') = true /\
      Forall (fun n => n <> ".git") (Name (Some d) :: chain) /\
      p = fold_left Join chain path.
Proof.
  induction d as [name | name es readErr IHes] using DirEntry_tree_ind; intros path p.
  - cbn [walkPaths In]. split; [intros []|].
    intros (chain & d' & HD & Hdir & _ & _). inversion HD; subst. discriminate.
  - cbn [walkPaths Name]. split.
    + destruct (String.eqb_spec name ".git") as [E|N]; [intros []|].
      intros [<- | Hin].
      * exists [], (Dir name es readErr). repeat split; try constructor; auto.
      * destruct readErr as [re|]; [destruct Hin|].
        apply in_flat_map in Hin as (d1 & Hd1 & Hin).
        rewrite Forall_forall in IHes.
        apply (IHes d1 Hd1) in Hin as (chain & d' & HD & Hdir & HF & ->).
        exists (Name (Some d1) :: chain), d'.
        split; [now constructor|]. split; [assumption|].
        split; [now constructor | reflexivity].
    + intros (chain & d' & HD & Hdir & HF & ->).
      inversion HF as [|? ? Hname Hchain]; subst.
      apply String.eqb_neq in Hname. rewrite Hname.
      inversion HD as [|? ? d1 chain' ? Hd1 HD1]; subst.
      * now left.
      * right. apply in_flat_map. exists d1. split; [assumption|].
        rewrite Forall_forall in IHes. apply (IHes d1 Hd1).
        exists chain', d'. repeat split; assumption.
Qed.

Lemma indexed_iff (root : string) (st : Stat) (p : string) :
  In p (indexed root st) <->
  exists d chain d',
    rootEntry root st = Some d /\
    Descends d chain d' /\ IsDir (Some d') = true /\
    Forall (fun n => n <> ".git") (basename root :: chain) /\
    p = fold_left Join chain root.
Proof.
  unfold indexed. destruct (rootEntry root st) as [d|] eqn:Hd.
  - rewrite walkPaths_iff.
    assert (Hn : Name (Some d) = basename root)
      by (destruct st; inversion Hd; reflexivity).
    rewrite Hn. split.
    + intros (chain & d' & H). exists d, chain, d'. split; [reflexivity | exact H].
    + intros (d0 & chain & d' & E & H). inversion E; subst d0. now exists chain, d'.
  - split; [intros [] | intros (d & chain & d' & E & _); discriminate].
Qed.

End Walk.

(** ** Clean absolute paths *)

Section Paths.

Import Indexer.

Lemma properName_spec (n : string) :
  properName n = true ->
  n <> EmptyString /\ hasByte slash n = false /\ n <> "." /\ n <> "..".
Proof.
  unfold properName. rewrite !andb_true_iff, !negb_true_iff, !String.eqb_neq.
  tauto.
Qed.

Lemma splitFrom_no_slash (n : string) :
  hasByte slash n = false ->
  forall cur rest, splitFrom cur (n ++ rest) = splitFrom (cur ++ n) rest.
Proof.
  induction n as [|a n IH]; intros Hn cur rest.
  - cbn. now rewrite append_nil_r.
  - cbn [hasByte] in Hn. apply orb_false_iff in Hn as [Ha Hn].
    cbn [append splitFrom]. rewrite Ha, (IH Hn), append_assoc. reflexivity.
Qed.

Lemma splitFrom_name (n : string) :
  hasByte slash n = false -> forall cur, splitFrom cur n = [cur ++ n].
Proof.
  intros Hn cur. rewrite <- (append_nil_r n) at 1.
  now rewrite splitFrom_no_slash.
Qed.

Lemma splitFrom_slash (cur rest : string) :
  splitFrom cur (String slash rest) = cur :: splitFrom EmptyString rest.
Proof. reflexivity. Qed.

(** The elements of names joined by separators are the names. *)
Lemma elements_concat (n : string) (ns : list string) :
  Forall (fun x => hasByte slash x = false) (n :: ns) ->
  elements (String.concat "/" (n :: ns)) = n :: ns.
Proof.
  revert n. induction ns as [|m ns IH]; intros n HF; inversion HF as [|? ? Hn Hns]; subst.
  - cbn [String.concat]. unfold elements. now rewrite splitFrom_name.
  - change (String.concat "/" (n :: m :: ns))
      with (n ++ String slash (String.concat "/" (m :: ns))).
    unfold elements. rewrite splitFrom_no_slash by assumption.
    rewrite splitFrom_slash. cbn [append]. f_equal. now apply IH.
Qed.

Lemma elements_absPath (n : string) (ns : list string) :
  Forall (fun x => hasByte slash x = false) (n :: ns) ->
  elements (absPath (n :: ns)) = EmptyString :: n :: ns.
Proof.
  intros HF. unfold absPath, elements. rewrite splitFrom_slash.
  f_equal. now apply elements_concat.
Qed.

Lemma concat_snoc (n : string) (ns : list string) (m : string) :
  String.concat "/" ((n :: ns) ++ [m]) = String.concat "/" (n :: ns) ++ String slash m.
Proof.
  revert n. induction ns as [|k ns IH]; intros n.
  - reflexivity.
  - change (String.concat "/" ((n :: k :: ns) ++ [m]))
      with (n ++ String slash (String.concat "/" ((k :: ns) ++ [m]))).
    rewrite IH.
    change (String.concat "/" (n :: k :: ns))
      with (n ++ String slash (String.concat "/" (k :: ns))).
    now rewrite append_assoc.
Qed.

Lemma cleanStep_proper (r : bool) (acc : list string) (e : string) :
  properName e = true -> cleanStep r acc e = e :: acc.
Proof.
  intros H. apply properName_spec in H as (H1 & _ & H2 & H3).
  unfold cleanStep. apply String.eqb_neq in H1, H2, H3.
  now rewrite H1, H2, H3.
Qed.

Lemma fold_cleanStep_proper (r : bool) (es acc : list string) :
  Forall (fun e => properName e = true) es ->
  fold_left (cleanStep r) es acc = (rev es ++ acc)%list.
Proof.
  revert acc. induction es as [|e es IH]; intros acc HF; [reflexivity|].
  inversion HF as [|? ? He Hes]; subst.
  cbn [fold_left rev]. rewrite cleanStep_proper by assumption.
  rewrite (IH _ Hes), <- app_assoc. reflexivity.
Qed.

Lemma proper_no_slash (es : list string) :
  Forall (fun e => properName e = true) es ->
  Forall (fun x => hasByte slash x = false) es.
Proof.
  apply Forall_impl. intros e H. now apply properName_spec in H.
Qed.

(** [Join] of a clean absolute path and a name adds the name as the last
    element. *)
Lemma Join_absPath (elems : list string) (n : string) :
  Forall (fun e => properName e = true) elems -> properName n = true ->
  Join (absPath elems) n = absPath (elems ++ [n]).
Proof.
  intros HF Hn. unfold Join.
  change (absPath elems ++ "/" ++ n)
    with (String slash (String.concat "/" elems ++ String slash n)).
  change (negb (String.eqb (absPath elems) EmptyString)) with true. cbv iota.
  assert (HF' : Forall (fun e => properName e = true) (elems ++ [n]))
    by (apply Forall_app; split; [assumption | now constructor]).
  unfold Clean.
  change (rooted (String slash (String.concat "/" elems ++ String slash n))) with true.
  cbv iota.
  assert (Hel : fold_left (cleanStep true)
                  (elements (String slash (String.concat "/" elems ++ String slash n))) []
                = rev (elems ++ [n])).
  { destruct elems as [|e elems].
    - cbn [String.concat append]. unfold elements.
      rewrite !splitFrom_slash, splitFrom_name
        by (now apply properName_spec in Hn).
      cbn [fold_left append].
      change (cleanStep true [] EmptyString) with (@nil string).
      now rewrite cleanStep_proper.
    - rewrite <- concat_snoc. fold (absPath ((e :: elems) ++ [n])).
      change ((e :: elems) ++ [n])%list with (e :: (elems ++ [n]))%list in *.
      rewrite elements_absPath by (now apply proper_no_slash).
      change (fold_left (cleanStep true) (e :: (elems ++ [n])) [] = rev (e :: (elems ++ [n]))).
      rewrite fold_cleanStep_proper by assumption. now rewrite app_nil_r. }
  rewrite Hel, rev_involutive. reflexivity.
Qed.

Lemma fold_Join_absPath (chain elems : list string) :
  Forall (fun e => properName e = true) elems ->
  Forall (fun e => properName e = true) chain ->
  fold_left Join chain (absPath elems) = absPath (elems ++ chain).
Proof.
  revert elems. induction chain as [|n chain IH]; intros elems HE HC; cbn [fold_left].
  - now rewrite app_nil_r.
  - inversion HC as [|? ? Hn Hchain]; subst.
    rewrite Join_absPath by assumption.
    rewrite IH; [now rewrite <- app_assoc | | assumption].
    apply Forall_app; split; [assumption | now constructor].
Qed.

Lemma wellNamed_children (name : string) (es : list DirEntry) (re : option error) (d1 : DirEntry) :
  forallb wellNamed es = true -> In d1 es -> wellNamed d1 = true.
Proof. intros H Hin. rewrite forallb_forall in H. now apply H. Qed.

Lemma wellNamed_Name (d : DirEntry) : wellNamed d = true -> properName (Name (Some d)) = true.
Proof.
  destruct d as [n | n es re]; cbn [wellNamed Name]; [tauto|].
  now intros H%andb_true_iff.
Qed.

(** The names on the way down a well-named tree are proper names. *)
Lemma Descends_names (d : DirEntry) (chain : list string) (d' : DirEntry) :
  Descends d chain d' ->
  forallb wellNamed (match d with Dir _ es _ => es | Other _ => [] end) = true ->
  Forall (fun e => properName e = true) chain.
Proof.
  induction 1 as [d | name es d1 chain d' Hin HD IH]; intros HW; [constructor|].
  pose proof (wellNamed_children name es None d1 HW Hin) as Hd1.
  constructor; [now apply wellNamed_Name|].
  apply IH. destruct d1 as [n | n es1 re1]; [reflexivity|].
  cbn [wellNamed] in Hd1. now apply andb_true_iff in Hd1.
Qed.

Lemma elements_absPath_In (x : string) (elems : list string) :
  Forall (fun e => properName e = true) elems ->
  x <> EmptyString -> In x (elements (absPath elems)) -> In x elems.
Proof.
  intros HF Hx. destruct elems as [|e elems].
  - cbn. intros [H | [H | []]]; now symmetry in H.
  - rewrite elements_absPath by (now apply proper_no_slash).
    intros [H | H]; [now symmetry in H | exact H].
Qed.

(** With a clean absolute root and a well-named tree, the lines written are
    clean absolute paths: the elements of the root followed by the names on
    the way down. *)
Lemma indexed_absPath (elems : list string) (st : Stat) (p : string) :
  Forall (fun e => properName e = true) elems ->
  forallb wellNamed (statEntries st) = true ->
  In p (indexed (absPath elems) st) ->
  exists chain,
    p = absPath (elems ++ chain) /\
    Forall (fun e => properName e = true) chain /\
    Forall (fun n => n <> ".git") chain.
Proof.
  intros HE HW Hin.
  apply indexed_iff in Hin as (d & chain & d' & Hd & HD & _ & HF & ->).
  assert (HC : Forall (fun e => properName e = true) chain).
  { apply (Descends_names d chain d' HD).
    destruct st as [e | | es re]; inversion Hd; subst; [reflexivity | exact HW]. }
  exists chain. split; [now apply fold_Join_absPath|].
  split; [exact HC | now inversion HF].
Qed.

End Paths.

(** ** The Indexer: the properties of the specification *)

Section IndexerProperties.

Import Indexer Resolver.

Lemma walkPaths_not_git (path name : string) (es : list DirEntry) (re : option error) :
  name <> ".git" ->
  walkPaths path (Dir name es re) =
  path :: match re with
          | Some _ => []
          | None => flat_map (fun d1 => walkPaths (Join path (Name (Some d1))) d1) es
          end.
Proof. intros H. cbn [walkPaths]. apply String.eqb_neq in H. now rewrite H. Qed.

Lemma walkPaths_no_subdirectory (path : string) (es : list DirEntry) :
  Forall (fun d => IsDir (Some d) = false) es ->
  flat_map (fun d1 => walkPaths (Join path (Name (Some d1))) d1) es = [].
Proof.
  induction 1 as [|d es Hd _ IH]; [reflexivity|].
  cbn [flat_map]. rewrite IH. destruct d; [reflexivity | discriminate].
Qed.

(** C5, the claim as it is written, fails for a root that lies inside a
    .git directory: only the names of the entries met by the walk are
    compared with .git, not the elements of the root path. *)
Lemma root_inside_git :
  generateDatabase healthy (StatDir [Dir "pack" [] None; Dir "info" [] None] None)
                   "/a/.git/objects"
    = inl (unlines ["/a/.git/objects"; "/a/.git/objects";
                    "/a/.git/objects/pack"; "/a/.git/objects/info"]) /\
  In "/a/.git/objects/pack"
     (body (unlines ["/a/.git/objects"; "/a/.git/objects";
                     "/a/.git/objects/pack"; "/a/.git/objects/info"])) /\
  In ".git" (elements "/a/.git/objects/pack").
Proof.
  split; [reflexivity|]. split.
  - vm_compute. right. now left.
  - vm_compute. do 2 right. now left.
Qed.

(** C5, amended. The body of the snapshot holds exactly the directories that
    are found from the root by going down through directories that could be
    read, where neither the root's own name nor the name of any entry on the
    way, the directory itself included, is .git: below the root a directory
    named .git is skipped with all that lies under it, and no other name
    excludes a directory, hidden ones are included. The elements of the root
    path above its base name are not looked at: when the root is a clean
    absolute path none of whose elements is .git, no body line passes
    through an element .git. A snapshot built from /a with /a/.git/objects
    and /a/.config holds no path under /a/.git and does hold /a/.config. *)
Theorem only_git_is_skipped (root : string) (st : Stat) :
  generateDatabase healthy st root = inl (unlines (root :: indexed root st)) /\
  (forall p,
     In p (indexed root st) <->
     exists d chain d',
       rootEntry root st = Some d /\
       Descends d chain d' /\ IsDir (Some d') = true /\
       Forall (fun n => n <> ".git") (basename root :: chain) /\
       p = fold_left Join chain root) /\
  (forall elems,
     root = absPath elems ->
     Forall (fun e => properName e = true) elems -> ~ In ".git" elems ->
     forallb wellNamed (statEntries st) = true ->
     forall p, In p (indexed root st) -> ~ In ".git" (elements p)) /\
  generateDatabase healthy
    (StatDir [Dir ".config" [Dir "lcd" [] None] None;
              Dir ".git" [Dir "objects" [Dir "pack" [] None] None] None;
              Dir "src" [Dir ".git" [] None; Dir ".hidden" [] None] None] None) "/a"
    = inl (unlines ["/a"; "/a"; "/a/.config"; "/a/.config/lcd"; "/a/src"; "/a/src/.hidden"]).
Proof.
  split; [apply generateDatabase_healthy|].
  split; [intros p; apply indexed_iff|].
  split; [|reflexivity].
  intros elems -> HE Hgit HW p Hin Hel.
  destruct (indexed_absPath elems st p HE HW Hin) as (chain & -> & HC & HG).
  apply elements_absPath_In in Hel;
    [|apply Forall_app; now split | discriminate].
  apply in_app_or in Hel as [Hel | Hel]; [now apply Hgit|].
  rewrite Forall_forall in HG. now apply (HG _ Hel).
Qed.

Lemma only_git_is_skipped_witness :
  In "/home/u/.cache/go"
     (indexed "/home/u"
        (StatDir [Dir ".git" [Dir "objects" [] None] None;
                  Dir ".cache" [Dir ".git" [] None; Dir "go" [] None] None] None)) /\
  ~ In ".git" (elements "/home/u/.cache/go").
Proof.
  assert (Hin : In "/home/u/.cache/go"
                  (indexed "/home/u"
                     (StatDir [Dir ".git" [Dir "objects" [] None] None;
                               Dir ".cache" [Dir ".git" [] None; Dir "go" [] None] None] None)))
    by (vm_compute; do 2 right; now left).
  split; [exact Hin|].
  destruct (only_git_is_skipped "/home/u"
              (StatDir [Dir ".git" [Dir "objects" [] None] None;
                        Dir ".cache" [Dir ".git" [] None; Dir "go" [] None] None] None))
    as (_ & _ & H & _).
  apply (H ["home"; "u"]).
  - reflexivity.
  - repeat constructor.
  - vm_compute. intros [H1 | [H1 | []]]; discriminate H1.
  - reflexivity.
  - exact Hin.
Defined.

(** C6, the claim as it is written, fails: a root that [os.Lstat] cannot
    find, or a root directory that cannot be read, does not make
    [generateDatabase] fail. The error is handed to the function of lines
    225-245, which answers [SkipDir] as for any other error, and [WalkDir]
    returns nil. *)
Lemma missing_root_is_not_fatal :
  generateDatabase healthy
    (StatErr (ErrorString "lstat /nonexistent: no such file or directory")) "/nonexistent"
    = inl (unlines ["/nonexistent"]) /\
  generateDatabase healthy
    (StatDir [] (Some (ErrorString "open /root: permission denied"))) "/root"
    = inl (unlines ["/root"; "/root"]).
Proof. split; reflexivity. Qed.

(** C6, amended. [generateDatabase] does not fail when the root cannot be
    accessed: every error of the file system, at the root as below it, is
    answered by skipping. A root that cannot be found gives a snapshot with
    the header alone; a directory that cannot be read, the root or one below
    it, is written and what lies under it is pruned, and the walk goes on
    with the entries that follow. The operation fails only with an error of
    the snapshot file: of its creation, of a write or of the final flush. *)
Theorem only_file_errors_are_fatal (dk : Disk) (st : Stat) (root : string) :
  (createErr dk = None -> (forall n, fault dk n = None) ->
   generateDatabase dk st root = inl (unlines (root :: indexed root st))) /\
  (forall e, generateDatabase dk st root = inr e ->
             createErr dk = Some e \/ exists n, fault dk n = Some e) /\
  (forall e, indexed root (StatErr e) = []) /\
  (forall path name es e,
     name <> ".git" -> walkPaths path (Dir name es (Some e)) = [path]) /\
  (forall path parent es1 name sub e es2,
     parent <> ".git" -> name <> ".git" ->
     walkPaths path (Dir parent (es1 ++ Dir name sub (Some e) :: es2) None)
     = path :: (flat_map (fun d1 => walkPaths (Join path (Name (Some d1))) d1) es1
                ++ Join path name
                :: flat_map (fun d1 => walkPaths (Join path (Name (Some d1))) d1) es2)%list).
Proof.
  split; [|split; [|split; [|split]]].
  - intros Hc Hf. now apply generateDatabase_no_fault.
  - intros e. apply generateDatabase_error.
  - reflexivity.
  - intros path name es e Hn. now rewrite walkPaths_not_git.
  - intros path parent es1 name sub e es2 Hp Hn.
    rewrite (walkPaths_not_git _ _ _ _ Hp), flat_map_app. cbn [flat_map Name].
    now rewrite (walkPaths_not_git _ _ _ _ Hn).
Qed.

Lemma only_file_errors_are_fatal_witness :
  generateDatabase healthy
    (StatDir [Dir "a" [] None;
              Dir "locked" [Dir "x" [] None] (Some (ErrorString "permission denied"));
              Dir "z" [] None] None) "/srv"
  = inl (unlines ["/srv"; "/srv"; "/srv/a"; "/srv/locked"; "/srv/z"]).
Proof.
  destruct (only_file_errors_are_fatal healthy
              (StatDir [Dir "a" [] None;
                        Dir "locked" [Dir "x" [] None] (Some (ErrorString "permission denied"));
                        Dir "z" [] None] None) "/srv") as [H _].
  apply H; reflexivity.
Defined.

End IndexerProperties.

(** ** The root in the snapshot *)

Section RootLine.

Import Indexer Resolver.

Context {tables : CaseTables}.

(** C1, amended. When the root is a directory whose name is not .git, the
    snapshot holds the root path twice: as the header and again as the line
    after it, the first body line. Scanning such a root with zero
    subdirectories yields a snapshot whose body is the root line alone;
    when the root path is not empty, holds no line feed, does not end in a
    carriage return and is shorter than 64 KiB, the Resolver then returns
    the root for a term that the base name of the root contains up to case,
    and fails with the not-found error for any other term. *)
Theorem root_is_first_body_line (root : string) (es : list DirEntry) (re : option error) :
  basename root <> ".git" ->
  (exists rest,
     generateDatabase healthy (StatDir es re) root = inl (unlines (root :: root :: rest))) /\
  (Forall (fun d => IsDir (Some d) = false) es ->
   generateDatabase healthy (StatDir es re) root = inl (unlines [root; root]) /\
   (root <> EmptyString -> plainLine root -> shortLine root ->
    bodyLines (unlines [root; root]) = [root] /\
    forall term,
      (ContainsUpToCase (baseName root) term ->
       searchDatabaseOptimized (inl (unlines [root; root])) term = inl root) /\
      (~ ContainsUpToCase (baseName root) term ->
       searchDatabaseOptimized (inl (unlines [root; root])) term = inr (notFound term)))).
Proof.
  intros Hgit. rewrite generateDatabase_healthy.
  unfold indexed, rootEntry. rewrite (walkPaths_not_git _ _ _ _ Hgit).
  split; [eexists; reflexivity|].
  intros Hes. split.
  - destruct re; [reflexivity|]. now rewrite walkPaths_no_subdirectory.
  - intros Hne Hplain Hshort.
    assert (Hb : body (unlines [root; root]) = [root])
      by (apply body_unlines; do 2 (constructor; [assumption|]); constructor).
    split.
    + unfold bodyLines. rewrite fileLines_unlines; [reflexivity|].
      do 2 (constructor; [assumption|]); constructor.
    + intros term. rewrite search_body, Hb.
      apply search_single; [assumption|].
      apply MaxScanTokenSize_fits. unfold shortLine in Hshort. lia.
Qed.

End RootLine.

Section RootLineOnSnapshots.

Import Indexer Resolver.

(** C1, the claim as it is written, fails: [filepath.WalkDir] calls its
    function for the root first, and the root, a directory, is written like
    any other. The snapshot of a directory without subdirectories has the
    root as its one body line, and the Resolver finds it. *)
Lemma root_is_a_body_line :
  generateDatabase healthy (StatDir [Other "notes.txt"] None) "/home/u/empty"
    = inl (unlines ["/home/u/empty"; "/home/u/empty"]) /\
  bodyLines (unlines ["/home/u/empty"; "/home/u/empty"]) = ["/home/u/empty"] /\
  In "/home/u/empty" (bodyLines (unlines ["/home/u/empty"; "/home/u/empty"])) /\
  searchDatabaseOptimized (inl (unlines ["/home/u/empty"; "/home/u/empty"])) "empty"
    = inl "/home/u/empty".
Proof. repeat split; try reflexivity. now left. Qed.

Lemma root_is_first_body_line_witness :
  (exists rest,
     generateDatabase healthy (StatDir [Other "notes.txt"] None) "/home/u/empty"
       = inl (unlines ("/home/u/empty" :: "/home/u/empty" :: rest))) /\
  generateDatabase healthy (StatDir [Other "notes.txt"] None) "/home/u/empty"
    = inl (unlines ["/home/u/empty"; "/home/u/empty"]) /\
  bodyLines (unlines ["/home/u/empty"; "/home/u/empty"]) = ["/home/u/empty"] /\
  searchDatabaseOptimized (inl (unlines ["/home/u/empty"; "/home/u/empty"])) "EMPTY"
    = inl "/home/u/empty" /\
  searchDatabaseOptimized (inl (unlines ["/home/u/empty"; "/home/u/empty"])) "u"
    = inr (notFound "u").
Proof.
  assert (Hgit : basename "/home/u/empty" <> ".git") by (vm_compute; discriminate).
  destruct (root_is_first_body_line "/home/u/empty" [Other "notes.txt"] None Hgit)
    as [H1 H2].
  split; [exact H1|].
  assert (Hes : Forall (fun d => IsDir (Some d) = false) [Other "notes.txt"])
    by (repeat constructor).
  destruct (H2 Hes) as [H3 H4]. split; [exact H3|].
  assert (Hne : "/home/u/empty" <> EmptyString) by discriminate.
  assert (Hp : plainLine "/home/u/empty") by (split; reflexivity).
  assert (Hs : shortLine "/home/u/empty") by reflexivity.
  destruct (H4 Hne Hp Hs) as [H5 H6]. split; [exact H5|]. split.
  - apply (H6 "EMPTY"). apply partialTest_iff. reflexivity.
  - apply (H6 "u"). intros Hc. apply partialTest_iff in Hc. discriminate Hc.
Defined.

End RootLineOnSnapshots.

(** * Further properties of the code *)

(** ** The Resolver *)

Section ResolverMore.

Import Resolver.

Context {tables : CaseTables}.

Lemma baseName_no_slash (path : string) : hasByte slash (baseName path) = false.
Proof.
  destruct (baseName_spec path) as [[H E] | (pre & _ & H)]; [now rewrite E | exact H].
Qed.

(** X1. The case of the term does not matter: two terms that are equal up
    to case find the same line, and fail on the same snapshots (each with
    its own spelling in the message). *)
Theorem resolve_term_case (content t t' : string) :
  EqFold t t' ->
  (forall r, searchDatabaseOptimized (inl content) t = inl r <->
             searchDatabaseOptimized (inl content) t' = inl r) /\
  (searchDatabaseOptimized (inl content) t = inr (notFound t) <->
   searchDatabaseOptimized (inl content) t' = inr (notFound t')).
Proof.
  intros H. apply ToLower_EqFold in H.
  rewrite !search_body. unfold scan, choose. rewrite H.
  set (b := fold_left (step (ToLower t')) (body content) initBest).
  destruct (negb (String.eqb (bestExact b) EmptyString));
    [|destruct (negb (String.eqb (bestPartial b) EmptyString))];
    split; try tauto; split; intros E; try discriminate E; reflexivity.
Qed.

(** X2. Only base names are compared, so a term that holds a path separator
    matches nothing: the Resolver fails on every snapshot. *)
Theorem resolve_term_with_separator (content term : string) :
  hasByte slash term = true ->
  searchDatabaseOptimized (inl content) term = inr (notFound term).
Proof.
  intros Hterm. rewrite search_body, scan_none; [reflexivity|].
  intros p _. unfold classify.
  assert (Hp : partialTest term p = false).
  { destruct (partialTest term p) eqn:E; [|reflexivity].
    unfold partialTest in E. apply Contains_spec in E as (pre & post & E).
    apply (f_equal (hasByte slash)) in E.
    rewrite hasByte_slash_ToLower, baseName_no_slash, !hasByte_append,
      hasByte_slash_ToLower, Hterm in E.
    now rewrite orb_true_r in E. }
  destruct (exactTest term p) eqn:E.
  - apply exactTest_partialTest in E. congruence.
  - now rewrite Hp.
Qed.

Lemma fold_step_filter (term : string) (lines : list string) :
  forall b,
    fold_left (step (ToLower term)) lines b
    = fold_left (step (ToLower term)) (filter (partialTest term) lines) b.
Proof.
  induction lines as [|x lines IH]; intros b; [reflexivity|].
  cbn [fold_left filter]. destruct (partialTest term x) eqn:Hx.
  - cbn [fold_left]. apply IH.
  - rewrite IH. f_equal. rewrite step_classify. unfold classify.
    destruct (exactTest term x) eqn:E; [|now rewrite Hx].
    apply exactTest_partialTest in E. congruence.
Qed.

(** X3. On snapshots whose lines are shorter than 64 KiB the answer depends
    only on the body lines whose base name contains the term up to case:
    two such snapshots that agree on these lines, in their order, give the
    same answer, whatever other lines and whatever header they hold. *)
Theorem resolve_ignores_other_lines (c1 c2 term : string) :
  ShortLines c1 -> ShortLines c2 ->
  filter (partialTest term) (bodyLines c1) = filter (partialTest term) (bodyLines c2) ->
  searchDatabaseOptimized (inl c1) term = searchDatabaseOptimized (inl c2) term.
Proof.
  intros H1 H2 H. rewrite !search_body, (body_ShortLines c1 H1), (body_ShortLines c2 H2).
  unfold scan.
  now rewrite (fold_step_filter term (bodyLines c1)), H, <- fold_step_filter.
Qed.

End ResolverMore.

Section ResolverMoreOnSnapshots.

Import Resolver.

Lemma resolve_term_case_witness :
  searchDatabaseOptimized (inl (unlines ["/r"; "/r/Docs"; "/r/docs-old"])) "DOCS" = inl "/r/Docs" <->
  searchDatabaseOptimized (inl (unlines ["/r"; "/r/Docs"; "/r/docs-old"])) "docs" = inl "/r/Docs".
Proof.
  apply (resolve_term_case (unlines ["/r"; "/r/Docs"; "/r/docs-old"]) "DOCS" "docs").
  apply lowerBytes_eq_iff. reflexivity.
Defined.

Lemma resolve_term_with_separator_witness :
  searchDatabaseOptimized (inl (unlines ["/r"; "/r/src"; "/r/src/lcd"])) "src/lcd"
  = inr (notFound "src/lcd").
Proof. apply resolve_term_with_separator. reflexivity. Defined.

Lemma resolve_ignores_other_lines_witness :
  searchDatabaseOptimized (inl (unlines ["/r"; "/r/a"; "/r/a/web"; "/r/b"; "/r/b/web-old"])) "web"
  = searchDatabaseOptimized (inl (unlines ["/x"; "/r/a/web"; "/zz"; "/r/b/web-old"])) "web".
Proof.
  apply resolve_ignores_other_lines.
  - repeat constructor.
  - repeat constructor.
  - vm_compute. reflexivity.
Defined.

End ResolverMoreOnSnapshots.

(** ** The Indexer under write errors *)

Section IndexerFaults.

Import Indexer.

Lemma firstFault_app (f : nat -> option error) (n m : nat) :
  forall k,
    firstFault f k (n + m) =
    match firstFault f k n with
    | Some e => Some e
    | None => firstFault f (k + n) m
    end.
Proof.
  induction n as [|n IH]; intros k; cbn [firstFault Nat.add].
  - now rewrite Nat.add_0_r.
  - destruct (f k); [reflexivity|]. rewrite IH. now rewrite Nat.add_succ_r.
Qed.

Lemma Writer_eta (w : Writer) :
  {| out := out w ++ EmptyString; ops := ops w + 0 |} = w.
Proof. destruct w. cbn [out ops]. now rewrite append_nil_r, Nat.add_0_r. Qed.

Lemma firstFault_Some (f : nat -> option error) (n : nat) :
  forall k e, firstFault f k n = Some e -> exists i, f i = Some e.
Proof.
  induction n as [|n IH]; intros k e; cbn [firstFault]; [discriminate|].
  destruct (f k) as [e0|] eqn:Hk.
  - intros H; inversion H; subst. now exists k.
  - apply IH.
Qed.

Variable dk : Disk.
Hypothesis os_errors : forall n e, fault dk n = Some e -> osError e.

Lemma os_errors_first (k n : nat) (e : error) :
  firstFault (fault dk) k n = Some e -> osError e.
Proof. intros H. apply firstFault_Some in H as [i H]. eapply os_errors, H. Qed.

(** The walk under write errors: it stops at the first error of a write and
    returns it; without one it appends all the lines. *)
Lemma walkDir_faults (d : DirEntry) :
  forall path w,
    match firstFault (fault dk) (ops w) (List.length (walkPaths path d)) with
    | Some e => exists w', walkDir (walkFn dk) path d w = (w', Some e)
    | None =>
        walkDir (walkFn dk) path d w
        = ({| out := out w ++ unlines (walkPaths path d);
              ops := ops w + List.length (walkPaths path d) |}, None)
    end.
Proof.
  induction d as [name | name es readErr IHes] using DirEntry_tree_ind; intros path w.
  - rewrite walkDir_Other. cbn [walkFn IsDir andb walkPaths unlines List.length firstFault].
    now rewrite Writer_eta.
  - rewrite walkDir_Dir. cbn [walkFn IsDir Name walkPaths andb].
    destruct (String.eqb name ".git") eqn:Hgit.
    + cbn [isSkipDir unlines List.length firstFault]. now rewrite Writer_eta.
    + cbn [List.length firstFault]. unfold WriteString.
      destruct (fault dk (ops w)) as [e|] eqn:Hf.
      * destruct (os_errors _ _ Hf) as [He _]. rewrite He. eexists; reflexivity.
      * set (w1 := {| out := out w ++ (path ++ String LF EmptyString); ops := S (ops w) |}).
        destruct readErr as [re|].
        -- cbn [isSkipDir List.length firstFault unlines]. subst w1. f_equal. f_equal.
           now rewrite Nat.add_1_r.
        -- assert (Hloop : forall ds w0,
                     Forall (fun d => forall path w,
                                 match firstFault (fault dk) (ops w) (List.length (walkPaths path d)) with
                                 | Some e => exists w', walkDir (walkFn dk) path d w = (w', Some e)
                                 | None =>
                                     walkDir (walkFn dk) path d w
                                     = ({| out := out w ++ unlines (walkPaths path d);
                                           ops := ops w + List.length (walkPaths path d) |}, None)
                                 end) ds ->
                     let L := flat_map (fun d1 => walkPaths (Join path (Name (Some d1))) d1) ds in
                     match firstFault (fault dk) (ops w0) (List.length L) with
                     | Some e => exists w', walkEntries (walkFn dk) path ds w0 = (w', Some e)
                     | None =>
                         walkEntries (walkFn dk) path ds w0
                         = ({| out := out w0 ++ unlines L; ops := ops w0 + List.length L |}, None)
                     end).
           { induction ds as [|d1 ds IHds]; intros w0 HF.
             - cbn [flat_map List.length firstFault walkEntries unlines].
               now rewrite Writer_eta.
             - inversion HF as [|? ? Hd1 Hds]; subst.
               cbn zeta. cbn [flat_map]. rewrite length_app, firstFault_app, walkEntries_cons.
               specialize (Hd1 (Join path (Name (Some d1))) w0).
               destruct (firstFault (fault dk) (ops w0)
                           (List.length (walkPaths (Join path (Name (Some d1))) d1))) as [e|] eqn:H1.
               + destruct Hd1 as [w' ->]. destruct (os_errors_first _ _ _ H1) as [He _].
                 rewrite He. eexists; reflexivity.
               + rewrite Hd1.
                 specialize (IHds {| out := out w0 ++ unlines (walkPaths (Join path (Name (Some d1))) d1);
                                     ops := ops w0 + List.length (walkPaths (Join path (Name (Some d1))) d1) |} Hds).
                 cbn zeta in IHds. cbn [ops out] in IHds.
                 destruct (firstFault (fault dk) _ _) as [e|]; [exact IHds|].
                 rewrite IHds. f_equal. f_equal.
                 * now rewrite unlines_app, append_assoc.
                 * now rewrite Nat.add_assoc. }
           specialize (Hloop es w1 IHes). cbn zeta in Hloop. subst w1. cbn [ops out] in Hloop.
           destruct (firstFault (fault dk) (S (ops w)) _) as [e|]; [exact Hloop|].
           rewrite Hloop. f_equal. f_equal.
           ++ now rewrite append_line.
           ++ now rewrite Nat.add_succ_r.
Qed.

Lemma WalkDir_faults (root : string) (st : Stat) (w : Writer) :
  match firstFault (fault dk) (ops w) (List.length (indexed root st)) with
  | Some e => exists w', WalkDir root st (walkFn dk) w = (w', Some e)
  | None =>
      WalkDir root st (walkFn dk) w
      = ({| out := out w ++ unlines (indexed root st);
            ops := ops w + List.length (indexed root st) |}, None)
  end.
Proof.
  unfold WalkDir, indexed, rootEntry. destruct st as [e0 | | es re].
  - cbn [walkFn isSkipDir orb List.length firstFault unlines]. now rewrite Writer_eta.
  - pose proof (walkDir_faults (Other (basename root)) root w) as H.
    destruct (firstFault (fault dk) (ops w) _) as [e|] eqn:H1.
    + destruct H as [w' ->]. destruct (os_errors_first _ _ _ H1) as [H2 H3].
      rewrite H2, H3. eexists; reflexivity.
    + now rewrite H.
  - pose proof (walkDir_faults (Dir (basename root) es re) root w) as H.
    destruct (firstFault (fault dk) (ops w) _) as [e|] eqn:H1.
    + destruct H as [w' ->]. destruct (os_errors_first _ _ _ H1) as [H2 H3].
      rewrite H2, H3. eexists; reflexivity.
    + now rewrite H.
Qed.

End IndexerFaults.

Section IndexerMore.

Import Indexer Resolver.

(** X4. With a file that can be created and errors that are those of the
    operating system, [generateDatabase] returns the first error met by one
    of its writes: the header, one line for each indexed directory, and the
    final flush. It returns nil exactly when none of them fails, and then
    the file holds the header followed by every indexed directory: no write
    error is lost, and no incomplete snapshot is reported as done. *)
Theorem generateDatabase_first_fault (dk : Disk) (st : Stat) (root : string) :
  createErr dk = None ->
  (forall n e, fault dk n = Some e -> osError e) ->
  generateDatabase dk st root =
  match firstFault (fault dk) 0 (List.length (indexed root st) + 2) with
  | Some e => inr e
  | None => inl (unlines (root :: indexed root st))
  end.
Proof.
  intros Hc Hos. unfold generateDatabase. rewrite Hc.
  replace (List.length (indexed root st) + 2)%nat
    with (S (List.length (indexed root st) + 1)) by lia.
  cbn [firstFault]. unfold WriteString at 1. cbn [ops out].
  destruct (fault dk 0%nat) as [e0|]; [reflexivity|].
  rewrite firstFault_app.
  pose proof (WalkDir_faults dk Hos root st
                {| out := EmptyString ++ (root ++ String LF EmptyString); ops := 1 |}) as H.
  cbn [ops out] in H.
  destruct (firstFault (fault dk) 1 (List.length (indexed root st))) as [e|].
  - destruct H as [w' ->]. reflexivity.
  - rewrite H. unfold Flush. cbn [ops out firstFault].
    destruct (fault dk (1 + List.length (indexed root st))); [reflexivity|].
    now rewrite append_line.
Qed.

Lemma generateDatabase_first_fault_witness :
  generateDatabase
    {| createErr := None;
       fault := fun n => if Nat.eqb n 3 then Some (ErrorString "no space left on device") else None |}
    (StatDir [Dir "a" [] None; Dir "b" [] None] None) "/srv"
  = match firstFault
            (fun n => if Nat.eqb n 3 then Some (ErrorString "no space left on device") else None)
            0 (List.length (indexed "/srv" (StatDir [Dir "a" [] None; Dir "b" [] None] None)) + 2) with
    | Some e => inr e
    | None => inl (unlines ("/srv" :: indexed "/srv" (StatDir [Dir "a" [] None; Dir "b" [] None] None)))
    end.
Proof.
  apply generateDatabase_first_fault.
  - reflexivity.
  - intros n e. cbn [fault]. destruct (Nat.eqb n 3); [|discriminate].
    intros H; inversion H. split; reflexivity.
Defined.

End IndexerMore.

(** ** The Indexer and the Resolver together *)

Section RoundTrip.

Import Indexer Resolver.

Context {tables : CaseTables}.

(** The snapshot of a walk whose paths are plain, short lines is read back
    line by line. *)
Lemma body_of_snapshot (root : string) (st : Stat) :
  Forall plainLine (root :: indexed root st) ->
  Forall shortLine (root :: indexed root st) ->
  body (unlines (root :: indexed root st)) = indexed root st.
Proof. apply body_unlines. Qed.

(** X5. Building a snapshot and resolving against it, when the paths
    written are lines without line feed or trailing carriage return,
    shorter than 64 KiB: every indexed directory with a non-empty base name
    is found by that name. The Resolver returns an indexed directory whose
    name has the same lower-case form and whose path is not longer than the
    one asked for. *)
Theorem indexed_directory_is_found (root : string) (st : Stat) (p : string) :
  Forall plainLine (root :: indexed root st) ->
  Forall shortLine (root :: indexed root st) ->
  In p (indexed root st) ->
  baseName p <> EmptyString ->
  exists content r,
    generateDatabase healthy st root = inl content /\
    searchDatabaseOptimized (inl content) (baseName p) = inl r /\
    In r (indexed root st) /\
    EqualUpToCase (baseName r) (baseName p) /\
    len r <= len p.
Proof.
  intros Hplain Hshort Hin Hname.
  exists (unlines (root :: indexed root st)).
  pose proof (body_of_snapshot root st Hplain Hshort) as Hbody.
  assert (Hex : exists q, In q (body (unlines (root :: indexed root st))) /\
                          ExactCandidate (baseName p) q).
  { exists p. rewrite Hbody. split; [assumption | reflexivity]. }
  pose proof (body_fits (unlines (root :: indexed root st))) as Hfit'.
  pose proof (scan_exact (baseName p) _ Hfit' Hex) as Hbest.
  remember (bestExact (scan (baseName p) (body (unlines (root :: indexed root st)))))
    as r eqn:Er.
  exists r. split; [apply generateDatabase_healthy|].
  destruct Hbest as (pre & post & E & Hc & Hpre & Hpost).
  assert (Hr : In r (indexed root st)) by (rewrite <- Hbody, E; apply in_elt).
  split; [|split; [exact Hr | split; [exact Hc|]]].
  - rewrite search_body, Er.
    apply choose_exact. rewrite <- Er. apply classify_Exact_iff in Hc.
    exact (classify_Exact_nonempty _ _ Hname Hc).
  - assert (Hpp : ExactCandidate (baseName p) p) by reflexivity.
    rewrite <- Hbody, E in Hin.
    apply in_app_or in Hin as [Hin | [Heq | Hin]].
    + specialize (Hpre p Hin Hpp). lia.
    + rewrite Heq. lia.
    + exact (Hpost p Hin Hpp).
Qed.

(** X6. On a snapshot just built whose paths are lines without line feed
    or trailing carriage return, the root path shorter than 64 KiB:
    whatever the Resolver returns is a directory the walk has reached. It
    is found from the root by going down through directories that could be
    read, none of them named .git, so it is never a file, nor something
    below a skipped or unreadable directory; and its base name contains the
    term up to case. *)
Theorem resolved_path_was_indexed (root : string) (st : Stat) (term r : string) :
  Forall plainLine (root :: indexed root st) ->
  shortLine root ->
  searchDatabaseOptimized (inl (unlines (root :: indexed root st))) term = inl r ->
  generateDatabase healthy st root = inl (unlines (root :: indexed root st)) /\
  ContainsUpToCase (baseName r) term /\
  exists d chain d',
    rootEntry root st = Some d /\
    Descends d chain d' /\ IsDir (Some d') = true /\
    Forall (fun n => n <> ".git") (basename root :: chain) /\
    r = fold_left Join chain root.
Proof.
  intros Hplain Hshort Hr. split; [apply generateDatabase_healthy|].
  rewrite search_body in Hr.
  apply choose_scan_sound in Hr as [Hin Hp].
  apply body_In_bodyLines in Hin.
  - unfold bodyLines in Hin. rewrite (fileLines_unlines _ Hplain) in Hin. cbn [tl] in Hin.
    split; [now apply partialTest_iff | now apply indexed_iff].
  - unfold ShortHeader. rewrite splitLines_unlines; [exact Hshort|].
    eapply Forall_impl; [|exact Hplain]. now intros l [Hl _].
Qed.

End RoundTrip.

Section RoundTripOnTrees.

Import Indexer Resolver.

Lemma indexed_directory_is_found_witness :
  exists content r,
    generateDatabase healthy
      (StatDir [Dir "work" [Dir "Notes" [] None] None; Dir "notes" [] None] None) "/home/u"
      = inl content /\
    searchDatabaseOptimized (inl content) (baseName "/home/u/work/Notes") = inl r /\
    In r (indexed "/home/u"
            (StatDir [Dir "work" [Dir "Notes" [] None] None; Dir "notes" [] None] None)) /\
    EqualUpToCase (baseName r) (baseName "/home/u/work/Notes") /\
    len r <= len "/home/u/work/Notes".
Proof.
  assert (E : indexed "/home/u"
                (StatDir [Dir "work" [Dir "Notes" [] None] None; Dir "notes" [] None] None)
              = ["/home/u"; "/home/u/work"; "/home/u/work/Notes"; "/home/u/notes"])
    by (vm_compute; reflexivity).
  apply indexed_directory_is_found; rewrite ?E.
  - repeat constructor.
  - repeat constructor.
  - do 2 right. now left.
  - vm_compute. discriminate.
Defined.

Lemma resolved_path_was_indexed_witness :
  ContainsUpToCase (baseName "/home/u/src") "SRC" /\
  exists d chain d',
    rootEntry "/home/u"
      (StatDir [Dir ".git" [Dir "src" [] None] None; Dir "src" [] None] None) = Some d /\
    Descends d chain d' /\ IsDir (Some d') = true /\
    Forall (fun n => n <> ".git") (basename "/home/u" :: chain) /\
    "/home/u/src" = fold_left Join chain "/home/u".
Proof.
  apply (resolved_path_was_indexed "/home/u"
           (StatDir [Dir ".git" [Dir "src" [] None] None; Dir "src" [] None] None) "SRC").
  - assert (E : indexed "/home/u"
                  (StatDir [Dir ".git" [Dir "src" [] None] None; Dir "src" [] None] None)
                = ["/home/u"; "/home/u/src"])
      by (vm_compute; reflexivity).
    rewrite E. repeat constructor.
  - reflexivity.
  - vm_compute. reflexivity.
Defined.

End RoundTripOnTrees.

(** ** The command line *)

Section MainProperties.

Import Indexer Resolver Cli.

Context {tables : CaseTables}.

(** Unfolds the steps of the process. *)
Ltac unfold_main :=
  unfold runMain, mainWith, enterDirectory, copyToClipboard, runGenerateDatabase,
    printHelp, fatal, when, bind, ret, exit, printOut, printErr.

Ltac simpl_run :=
  cbn [fst snd stdout stderr snapshot commands negb orb andb
       userHomeDir db lstat disk getwd chdir shellEnv execErr goos lookPath runCmd
       flagReport withDb].

Ltac split_cases :=
  repeat (simpl_run;
          match goal with
          | |- context [match ?c with _ => _ end] =>
              lazymatch c with
              | context [match _ with _ => _ end] => fail
              | _ => destruct c eqn:?
              end
          end).

(** The cases of the options and of the environment that decide whether a
    scan is due and what its root is. *)
Ltac case_flags cfg w :=
  destruct (help cfg); destruct (showVersion cfg);
  destruct (userHomeDir w) as [?home|?e];
  destruct (rescan cfg); destruct (db w) as [|?content ?oe];
  destruct (String.eqb (newBaseDir cfg) EmptyString);
  simpl_run.

(** The process once the command line is parsed. *)
Lemma runProcess_parsed (osArgs : list string) (cfg : Config) (w : World) :
  parseFlags osArgs = inl cfg -> runProcess osArgs w = runMain cfg w.
Proof.
  intros E. unfold runProcess, main, parseFlagsOrExit, runMain, bind, ret.
  now rewrite E.
Qed.

(** The process on a command line that [flag.Parse] rejects. *)
Lemma runProcess_rejected (osArgs : list string) (e : ParseError) (w : World) :
  parseFlags osArgs = inr e ->
  runProcess osArgs w
  = (inr (Exit 2),
     {| stdout := EmptyString; stderr := flagReport w e;
        snapshot := Untouched; commands := [] |}).
Proof.
  intros E. unfold runProcess, main, parseFlagsOrExit, bind, printErr, exit.
  now rewrite E.
Qed.

Lemma runMain_without_term (cfg : Config) (w : World) :
  searchTerm cfg = EmptyString ->
  fst (runMain cfg w) = inr (Exit 1) /\ commands (snd (runMain cfg w)) = [].
Proof.
  intros Hterm. unfold_main. rewrite Hterm. cbn [String.eqb].
  split_cases; split; reflexivity.
Qed.

(** X7. Without a search term nothing is resolved. When the command line
    gives no search term, the process ends with status 2 if [flag.Parse]
    rejects an option and with status 1 otherwise, whatever the options and
    the environment; it runs no command and spawns no shell. *)
Theorem main_without_term (osArgs : list string) (w : World) :
  (forall cfg, parseFlags osArgs = inl cfg -> searchTerm cfg = EmptyString) ->
  fst (runProcess osArgs w)
    = inr (Exit (match parseFlags osArgs with inl _ => 1 | inr _ => 2 end)) /\
  commands (snd (runProcess osArgs w)) = [].
Proof.
  intros Hterm. destruct (parseFlags osArgs) as [cfg|e] eqn:E.
  - rewrite (runProcess_parsed osArgs cfg w E).
    apply runMain_without_term. now apply Hterm.
  - rewrite (runProcess_rejected osArgs e w E). split; reflexivity.
Qed.

(** X8. The root stored in the header of the snapshot is never used: the
    run of the process is the same for every header of the file found that
    is shorter than 64 KiB, be it when the file is searched or when it is
    rebuilt. In particular a rescan without a new root does not scan the
    stored root again. *)
Theorem main_ignores_stored_root (cfg : Config) (w : World) (h h' rest : string)
        (oe : option error) :
  hasByte LF h = false -> hasByte LF h' = false ->
  shortLine h -> shortLine h' ->
  runMain cfg (withDb w (DbPresent (h ++ String LF rest) oe))
  = runMain cfg (withDb w (DbPresent (h' ++ String LF rest) oe)).
Proof.
  intros Hh Hh' Hs Hs'. unfold_main. simpl_run.
  destruct (help cfg); [reflexivity|].
  destruct (showVersion cfg); [reflexivity|].
  destruct (userHomeDir w) as [home|e]; [|reflexivity].
  simpl_run.
  destruct (rescan cfg); simpl_run.
  - split_cases; reflexivity.
  - destruct (String.eqb (newBaseDir cfg) EmptyString); simpl_run;
      [|split_cases; reflexivity].
    destruct (String.eqb (searchTerm cfg) EmptyString); [reflexivity|].
    unfold openDb. destruct oe as [e|]; [reflexivity|].
    now rewrite !search_body, !body_header.
Qed.

(** X9. What the process does to the snapshot file. Nothing with help or
    version asked for, without a home directory, or when no scan is due.
    A scan is due when it is asked for, when the file is missing, or when a
    new root is given; its root is the new root if there is one and the
    home directory otherwise, and the file is then replaced by the snapshot
    of that root. *)
Theorem main_snapshot_effect (cfg : Config) (w : World) :
  snapshot (snd (runMain cfg w)) =
  match userHomeDir w with
  | inl home =>
      if negb (help cfg) && negb (showVersion cfg) && scanDue cfg w
      then scanEffect cfg w home
      else Untouched
  | inr _ => Untouched
  end.
Proof.
  unfold_main. unfold scanEffect, scanDue, scanRoot.
  case_flags cfg w; split_cases; reflexivity.
Qed.

Lemma generateDatabase_inl_start (dk : Disk) (st : Stat) (root content : string) :
  generateDatabase dk st root = inl content ->
  createErr dk = None /\ fault dk 0%nat = None.
Proof.
  unfold generateDatabase, WriteString. cbn [ops].
  destruct (createErr dk); [discriminate|].
  destruct (fault dk 0%nat); [discriminate|]. now split.
Qed.

(** X10. With the print option the standard output is the resolved path
    and a line feed, and the status is 0; no command is run. When a scan
    took place, and only then, the output starts with the notice of the
    scan, which names the root scanned. *)
Theorem main_print_output (cfg : Config) (w : World) (home m : string) :
  help cfg = false -> showVersion cfg = false ->
  userHomeDir w = inl home ->
  printOnly cfg = true ->
  searchTerm cfg <> EmptyString ->
  (scanDue cfg w = true ->
   exists c, generateDatabase (disk w) (lstat w (scanRoot cfg home)) (scanRoot cfg home) = inl c) ->
  searchDatabaseOptimized (openDb (Join home dbFilename) (dbSearched cfg w home)) (searchTerm cfg)
    = inl m ->
  fst (runMain cfg w) = inr (Exit 0) /\
  stdout (snd (runMain cfg w))
    = (if scanDue cfg w then scanNotice (scanRoot cfg home) else EmptyString)
      ++ m ++ String LF EmptyString /\
  commands (snd (runMain cfg w)) = [].
Proof.
  intros Hh Hv Hhome Hp Hterm Hgen Hs.
  apply String.eqb_neq in Hterm.
  unfold_main. unfold dbSearched, scanNotice in *.
  rewrite Hh, Hv, Hhome, Hp, Hterm. simpl_run.
  destruct (scanDue cfg w) eqn:Hdue; unfold scanDue, scanRoot in *.
  - destruct (Hgen eq_refl) as [c Hc]. clear Hgen.
    destruct (generateDatabase_inl_start _ _ _ _ Hc) as [H1 H2].
    destruct (rescan cfg); destruct (db w) as [|content oe];
      destruct (String.eqb (newBaseDir cfg) EmptyString);
      cbn [negb orb andb] in *; simpl_run; try discriminate Hdue;
      rewrite Hc in Hs |- *; rewrite H1, H2; simpl_run;
      destruct (verbose cfg); simpl_run; rewrite Hs; simpl_run;
      repeat split; reflexivity.
  - clear Hgen.
    destruct (rescan cfg); destruct (db w) as [|content oe];
      destruct (String.eqb (newBaseDir cfg) EmptyString);
      cbn [negb orb andb] in *; simpl_run; try discriminate Hdue.
    rewrite Hs. simpl_run. repeat split; reflexivity.
Qed.

Lemma runMain_ends (cfg : Config) (w : World) :
  match fst (runMain cfg w) with
  | inl _ => False
  | inr (Exit c) =>
      c = 1 \/
      (c = 0 /\ help cfg = false /\ showVersion cfg = false /\
       searchTerm cfg <> EmptyString)
  | inr (ExecShell sh argv cwd) =>
      help cfg = false /\ showVersion cfg = false /\
      searchTerm cfg <> EmptyString /\
      printOnly cfg = false /\ copyToClip cfg = false
  end.
Proof.
  unfold_main.
  destruct (String.eqb_spec (searchTerm cfg) EmptyString) as [E|N].
  - case_flags cfg w; split_cases; now left.
  - case_flags cfg w; split_cases;
      first [now left | right; repeat split; (reflexivity || assumption)
            | repeat split; (reflexivity || assumption)].
Qed.

(** X11. How the process ends. It always ends by itself, never by
    returning: with status 2 when [flag.Parse] rejects the command line,
    and else with status 1, with status 0, or by giving way to a shell.
    Status 0 and the shell are reached only with a search term and without
    the help and version options, and a shell is never spawned with the
    print or copy option. *)
Theorem main_ends (osArgs : list string) (w : World) :
  match fst (runProcess osArgs w) with
  | inl _ => False
  | inr (Exit c) =>
      (c = 2 /\ exists e, parseFlags osArgs = inr e) \/
      (exists cfg,
         parseFlags osArgs = inl cfg /\
         (c = 1 \/
          (c = 0 /\ help cfg = false /\ showVersion cfg = false /\
           searchTerm cfg <> EmptyString)))
  | inr (ExecShell sh argv cwd) =>
      exists cfg,
        parseFlags osArgs = inl cfg /\
        help cfg = false /\ showVersion cfg = false /\
        searchTerm cfg <> EmptyString /\
        printOnly cfg = false /\ copyToClip cfg = false
  end.
Proof.
  destruct (parseFlags osArgs) as [cfg|e] eqn:E.
  - rewrite (runProcess_parsed osArgs cfg w E).
    pose proof (runMain_ends cfg w) as H.
    destruct (fst (runMain cfg w)) as [u|[c|sh argv cwd]]; [exact H | |].
    + right. now exists cfg.
    + now exists cfg.
  - rewrite (runProcess_rejected osArgs e w E). cbn [fst]. left.
    split; [reflexivity | now exists e].
Qed.

(** X12. When the process gives way to a shell, the working directory has
    been changed to the path resolved for the search term, against the file
    found or the one just written; this path is not the directory the
    process was in. The shell is the one named by SHELL, or /bin/sh when
    that is empty, started with the single argument -i. *)
Theorem main_spawns_shell_in_match (cfg : Config) (w : World) (sh cwd : string)
        (argv : list string) :
  fst (runMain cfg w) = inr (ExecShell sh argv cwd) ->
  exists home,
    userHomeDir w = inl home /\
    searchDatabaseOptimized (openDb (Join home dbFilename) (dbSearched cfg w home))
                            (searchTerm cfg) = inl cwd /\
    chdir w cwd = None /\
    sh = (if String.eqb (shellEnv w) EmptyString then "/bin/sh" else shellEnv w) /\
    argv = [sh; "-i"] /\
    execErr w sh = None /\
    (forall cur, getwd w = inl cur -> Clean cur <> Clean cwd).
Proof.
  unfold_main. unfold dbSearched, scanDue, scanRoot.
  destruct (userHomeDir w) as [home|e];
    [|split_cases; intros H; discriminate H].
  intros H. exists home. revert H.
  destruct (help cfg); destruct (showVersion cfg);
    destruct (rescan cfg); destruct (db w) as [|content oe];
    destruct (String.eqb (newBaseDir cfg) EmptyString);
    simpl_run; split_cases; intros H; try discriminate H;
    inversion H; subst; repeat split; try eassumption; try reflexivity;
    try (intros cur Hcur; inversion Hcur; subst; now apply String.eqb_neq);
    try (intros cur Hcur; discriminate Hcur).
Qed.

(** X13. The only commands the process ever runs are the clipboard tools,
    and what they get on their standard input is the path resolved for the
    search term; this happens only with the copy option and without the
    print option. *)
Theorem main_runs_only_clipboard (cfg : Config) (w : World) (cmd : list string)
        (text : string) :
  In (cmd, text) (commands (snd (runMain cfg w))) ->
  copyToClip cfg = true /\ printOnly cfg = false /\
  In cmd clipboardTools /\
  exists home,
    userHomeDir w = inl home /\
    searchDatabaseOptimized (openDb (Join home dbFilename) (dbSearched cfg w home))
                            (searchTerm cfg) = inl text.
Proof.
  unfold_main. unfold dbSearched, scanDue, scanRoot, clipboardTools.
  destruct (userHomeDir w) as [home|e];
    [|split_cases; intros []].
  intros H. repeat split; revert H.
  1-3: destruct (help cfg); destruct (showVersion cfg);
    destruct (rescan cfg); destruct (db w) as [|content oe];
    destruct (String.eqb (newBaseDir cfg) EmptyString);
    simpl_run; split_cases; cbn [app In];
    intros H; try contradiction; try reflexivity;
    destruct H as [H | []]; inversion H; subst; cbn [In]; auto.
  intros H. exists home. revert H.
  destruct (help cfg); destruct (showVersion cfg);
    destruct (rescan cfg); destruct (db w) as [|content oe];
    destruct (String.eqb (newBaseDir cfg) EmptyString);
    simpl_run; split_cases; cbn [app In];
    intros H; try contradiction;
    destruct H as [H | []]; inversion H; subst; split; reflexivity.
Qed.

End MainProperties.

Section MainOnInputs.

Import Indexer Resolver Cli.

Lemma main_without_term_witness :
  fst (runProcess ["--rescan"; "--copy"] sampleWorld)
    = inr (Exit (match parseFlags ["--rescan"; "--copy"] with inl _ => 1 | inr _ => 2 end)) /\
  commands (snd (runProcess ["--rescan"; "--copy"] sampleWorld)) = [].
Proof.
  apply main_without_term.
  intros cfg E. vm_compute in E. injection E as <-. reflexivity.
Defined.

Lemma main_ignores_stored_root_witness :
  runMain (sampleConfig "lcd")
          (withDb sampleWorld (DbPresent ("/home/u" ++ String LF (unlines ["/home/u/src/lcd"])) None))
  = runMain (sampleConfig "lcd")
          (withDb sampleWorld (DbPresent ("/srv/other" ++ String LF (unlines ["/home/u/src/lcd"])) None)).
Proof. apply main_ignores_stored_root; reflexivity. Defined.

Lemma main_print_output_witness :
  fst (runMain (setBool FPrint true (setNewBaseDir "/home/u" (sampleConfig "MUSIC"))) sampleWorld)
    = inr (Exit 0) /\
  stdout (snd (runMain (setBool FPrint true (setNewBaseDir "/home/u" (sampleConfig "MUSIC")))
                       sampleWorld))
    = (if scanDue (setBool FPrint true (setNewBaseDir "/home/u" (sampleConfig "MUSIC"))) sampleWorld
       then scanNotice (scanRoot (setBool FPrint true (setNewBaseDir "/home/u" (sampleConfig "MUSIC")))
                                 "/home/u")
       else EmptyString)
      ++ "/home/u/music" ++ String LF EmptyString /\
  commands (snd (runMain (setBool FPrint true (setNewBaseDir "/home/u" (sampleConfig "MUSIC")))
                         sampleWorld)) = [].
Proof.
  apply (main_print_output _ sampleWorld "/home/u" "/home/u/music").
  - reflexivity.
  - reflexivity.
  - reflexivity.
  - reflexivity.
  - discriminate.
  - intros _. eexists. vm_compute. reflexivity.
  - vm_compute. reflexivity.
Defined.

Lemma main_spawns_shell_in_match_witness :
  exists home,
    userHomeDir sampleWorld = inl home /\
    searchDatabaseOptimized
      (openDb (Join home dbFilename) (dbSearched (sampleConfig "lcd") sampleWorld home))
      (searchTerm (sampleConfig "lcd")) = inl "/home/u/src/lcd" /\
    chdir sampleWorld "/home/u/src/lcd" = None /\
    "/bin/bash" = (if String.eqb (shellEnv sampleWorld) EmptyString then "/bin/sh"
                   else shellEnv sampleWorld) /\
    ["/bin/bash"; "-i"] = ["/bin/bash"; "-i"] /\
    execErr sampleWorld "/bin/bash" = None /\
    (forall cur, getwd sampleWorld = inl cur -> Clean cur <> Clean "/home/u/src/lcd").
Proof.
  apply (main_spawns_shell_in_match (sampleConfig "lcd") sampleWorld
           "/bin/bash" "/home/u/src/lcd" ["/bin/bash"; "-i"]).
  vm_compute. reflexivity.
Defined.

Lemma main_runs_only_clipboard_witness :
  copyToClip (setBool FCopy true (sampleConfig "lcd")) = true /\
  printOnly (setBool FCopy true (sampleConfig "lcd")) = false /\
  In ["wl-copy"] clipboardTools /\
  exists home,
    userHomeDir sampleWorld = inl home /\
    searchDatabaseOptimized
      (openDb (Join home dbFilename)
              (dbSearched (setBool FCopy true (sampleConfig "lcd")) sampleWorld home))
      (searchTerm (setBool FCopy true (sampleConfig "lcd"))) = inl "/home/u/src/lcd".
Proof.
  apply (main_runs_only_clipboard _ sampleWorld ["wl-copy"] "/home/u/src/lcd").
  vm_compute. now left.
Defined.

End MainOnInputs.

(** ** The options *)

Section Options.

Import Cli.

Lemma formal_names (n : string) (f : Flag) :
  formal n = Some f ->
  In n ["h"; "help"; "version"; "v"; "verbose"; "print"; "copy"; "rescan"; "newbasedir"].
Proof.
  unfold formal.
  repeat match goal with
         | |- context [String.eqb n ?l] =>
             destruct (String.eqb_spec n l) as [->|?]; [intros _; cbn; tauto|]
         end.
  discriminate.
Qed.

(** One option is read, and the rest is parsed with what it sets. *)
Lemma parse_option (o : Opt) (rest : list string) (cfg : Config) :
  validOpt o ->
  parse (render o ++ rest) cfg = parse rest (applyOpt cfg o).
Proof.
  destruct o as [d n | d v | d v]; cbn [validOpt render applyOpt app].
  - intros (f & Hf & Hb). pose proof (formal_names n f Hf) as Hn.
    cbn [In] in Hn.
    repeat (destruct Hn as [<- | Hn]; [destruct d; inversion Hf; subst; try discriminate Hb; reflexivity|]).
    destruct Hn.
  - intros _. destruct d; reflexivity.
  - intros _. destruct d; reflexivity.
Qed.

Lemma parse_options (opts : list Opt) (rest : list string) :
  Forall validOpt opts ->
  forall cfg,
    parse (flat_map render opts ++ rest) cfg = parse rest (fold_left applyOpt opts cfg).
Proof.
  induction 1 as [|o opts Ho _ IH]; intros cfg; [reflexivity|].
  cbn [flat_map fold_left]. rewrite <- app_assoc, parse_option by assumption.
  apply IH.
Qed.

Lemma parse_positional (a : string) (rest : list string) (cfg : Config) :
  positional a = true -> parse (a :: rest) cfg = inl (cfg, a :: rest).
Proof.
  destruct a as [|c [|c' a]]; intros H; try reflexivity.
  - destruct c as [[] [] [] [] [] [] [] []]; reflexivity.
  - destruct c as [[] [] [] [] [] [] [] []]; try reflexivity; discriminate H.
Qed.

(** X14. Options are read only in front of the first argument that is not
    a flag, or of a double dash: every argument that follows, also one that
    looks like an option, is part of the search term, and the term is these
    arguments joined by single spaces. The new root is the argument after
    its flag or what follows its equals sign, taken as it is. *)
Theorem parseFlags_options_then_term (opts : list Opt) :
  Forall validOpt opts ->
  let cfg := fold_left applyOpt opts zeroConfig in
  parseFlags (flat_map render opts) = inl cfg /\
  (forall a rest,
     positional a = true ->
     parseFlags (flat_map render opts ++ a :: rest)
       = inl (setSearchTerm (String.concat " " (a :: rest)) cfg)) /\
  (forall a rest,
     parseFlags (flat_map render opts ++ "--" :: a :: rest)
       = inl (setSearchTerm (String.concat " " (a :: rest)) cfg)) /\
  parseFlags (flat_map render opts ++ ["--"]) = inl cfg.
Proof.
  intros Hv cfg. unfold parseFlags. repeat split.
  - rewrite <- (app_nil_r (flat_map render opts)), parse_options by assumption.
    reflexivity.
  - intros a rest Ha. rewrite parse_options by assumption.
    now rewrite parse_positional.
  - intros a rest. rewrite parse_options by assumption. reflexivity.
  - rewrite parse_options by assumption. reflexivity.
Qed.

Lemma parseFlags_options_then_term_witness :
  parseFlags (flat_map render [OBool true "rescan"; ONewBaseDir true "--print"]
              ++ "my" :: ["project"; "--copy"])
  = inl (setSearchTerm (String.concat " " ("my" :: ["project"; "--copy"]))
           (fold_left applyOpt [OBool true "rescan"; ONewBaseDir true "--print"] zeroConfig)).
Proof.
  assert (Hv : Forall validOpt [OBool true "rescan"; ONewBaseDir true "--print"]).
  { repeat constructor. exists FRescan. split; reflexivity. }
  destruct (parseFlags_options_then_term _ Hv) as (_ & H & _).
  apply H. reflexivity.
Defined.

End Options.

(** ** Entering the directory *)

Section Enter.

Import Indexer Cli.

Lemma splitFrom_trailing_slash (p : string) :
  forall cur, splitFrom cur (p ++ "/") = (splitFrom cur p ++ [EmptyString])%list.
Proof.
  induction p as [|c p IH]; intros cur; [reflexivity|].
  cbn [append splitFrom]. destruct (Ascii.eqb c slash); [|apply IH].
  cbn [app]. now rewrite IH.
Qed.

(** [Clean] drops a trailing separator. *)
Lemma Clean_trailing_slash (p : string) :
  p <> EmptyString -> Clean (p ++ "/") = Clean p.
Proof.
  intros Hp. unfold Clean.
  assert (Hr : rooted (p ++ "/") = rooted p) by (destruct p; [contradiction | reflexivity]).
  rewrite Hr. unfold elements. rewrite splitFrom_trailing_slash, fold_left_app.
  cbn [fold_left]. unfold cleanStep at 1. cbn [String.eqb orb]. reflexivity.
Qed.

(** X15. No shell is spawned for the directory the process is in already,
    also when the path resolved names it with a trailing separator (as the
    root line of a snapshot can): the process reports it and ends with
    status 0. *)
Theorem enterDirectory_already_there (w : World) (cur target : string) (p : Proc) :
  getwd w = inl cur -> cur <> EmptyString ->
  target = cur \/ target = cur ++ "/" ->
  enterDirectory w target p
  = (inr (Exit 0),
     {| stdout := stdout p ++ "Already in: " ++ target ++ String LF EmptyString;
        stderr := stderr p; snapshot := snapshot p; commands := commands p |}).
Proof.
  intros Hg Hne Ht. unfold enterDirectory, when, bind, ret, exit, printOut.
  rewrite Hg.
  assert (E : String.eqb (Clean cur) (Clean target) = true).
  { apply String.eqb_eq. destruct Ht as [-> | ->]; [reflexivity|].
    now rewrite Clean_trailing_slash. }
  rewrite E. reflexivity.
Qed.

Lemma enterDirectory_already_there_witness :
  enterDirectory (withDb sampleWorld DbMissing) "/tmp/" startProc
  = (inr (Exit 0),
     {| stdout := stdout startProc ++ "Already in: " ++ "/tmp/" ++ String LF EmptyString;
        stderr := stderr startProc; snapshot := snapshot startProc;
        commands := commands startProc |}).
Proof.
  apply (enterDirectory_already_there _ "/tmp").
  - reflexivity.
  - discriminate.
  - now right.
Defined.

End Enter.

